(** * Gowin TCL session driver ([gowin_mcp_server.py])

    A shallow embedding of [GowinProcess] (output buffer, prompt event,
    background reader, [send_command]) and of the tools [start_gowin],
    [stop_gowin] and the command builders, followed by the properties of
    the session driver.

    Conventions of the embedding.
    - Python [str] is [string]; [list[str]] is [list string].
    - The object [gowin] is the record [World]; every method is a
      computation in the monad [M], which threads the world and carries
      Python exceptions as the outcome [Raise].  A raised exception does
      not roll the world back.
    - The reader thread and the child process run concurrently with the
      caller.  What they do between two atomic actions of the caller is
      given by a list of [event]s; what the operating system answers to a
      write, a spawn, a wait or a signal is given by an oracle argument.
      Durations are not modelled: a timed wait expires exactly when the
      events that happen during it leave the awaited condition false.
    - The reader thread is interleaved at two points of its loop, the
      test of the loop condition and the return of the blocking
      [read(1)]; the rest of an iteration is taken as one step. *)

From Stdlib Require Import String Ascii List Bool Arith Lia ZArith.
From Stdlib Require QArith.
Import ListNotations.
Open Scope string_scope.

(** ** Python string primitives used by the source *)

Module Py.

(** The character ["\n"]. *)
Definition newline : ascii := ascii_of_nat 10.

(** [ch] seen as a one-character [str]. *)
Definition chr (ch : ascii) : string := String ch EmptyString.

(** The string ["\n"]. *)
Definition nl : string := chr newline.

(** ["".join(l)] *)
Definition join (l : list string) : string := String.concat "" l.

(** [s.index(sub)], [None] standing for [ValueError]; [sub in s] holds
    exactly when the result is [Some _]. *)
Definition find (sub s : string) : option nat := String.index 0 sub s.

(** [s[:i]] *)
Definition slice_to (i : nat) (s : string) : string := substring 0 i s.

(** [s[i:]] *)
Definition slice_from (i : nat) (s : string) : string :=
  substring i (String.length s - i) s.

(** [bool(s)]: a string is truthy when it is not empty. *)
Definition truthy (s : string) : bool :=
  match s with EmptyString => false | String _ _ => true end.

(** Python exception classes that occur in the driver.  [KeyboardInterrupt]
    and [SystemExit] derive from [BaseException] only, so a clause
    [except Exception] lets them through. *)
Inductive exn_class :=
| RuntimeError | TimeoutExpired | AttributeError | OSError | OverflowError
| KeyboardInterrupt | SystemExit.

(** An exception object: its class and [str(e)]. *)
Record exn := mk_exn { cls : exn_class; msg : string }.

(** [isinstance(e, Exception)] *)
Definition is_Exception (e : exn) : bool :=
  match cls e with
  | KeyboardInterrupt | SystemExit => false
  | _ => true
  end.

(** [isinstance(e, subprocess.TimeoutExpired)] *)
Definition is_TimeoutExpired (e : exn) : bool :=
  match cls e with TimeoutExpired => true | _ => false end.

(** A finite Python [float], as the rational number it denotes. *)
Definition float : Type := QArith_base.Q.

(** The float of an integer literal, [30.0] for [30]. *)
Definition of_int (z : Z) : float := QArith_base.inject_Z z.

(** [threading.TIMEOUT_MAX], the longest timeout a lock accepts:
    [4294967.0] in CPython on Windows, the platform of [GOWIN_PATH];
    other platforms have a larger bound. *)
Definition TIMEOUT_MAX : float := of_int 4294967.

(** [timeout <= threading.TIMEOUT_MAX] *)
Definition timeout_accepted (timeout : float) : bool :=
  QArith_base.Qle_bool timeout TIMEOUT_MAX.

End Py.
Import Py.

(** ** The session object and the monad of its methods *)

(** [subprocess.Popen]: [returncode] is what [poll()] answers, [None]
    while the child is alive. *)
Record Popen := mk_Popen { returncode : option Z }.

Definition poll (p : Popen) : option Z := returncode p.

(** The reader thread running [read_output], with its local [buf]: not
    started, about to test the loop condition, inside the blocking
    [read(1)], or returned. *)
Inductive reader_state :=
| NotStarted
| Scanning (buf : string)
| Blocked (buf : string)
| Finished.

(** Effects the caller thread requests on the shared objects and on the
    child, in the order requested (ghost state: the source keeps no such
    log).  A request is logged whether or not it then raises. *)
Inductive action :=
| Clear                 (* prompt_ready.clear() *)
| Drain                 (* get_output() *)
| Write (text : string) (* process.stdin.write(text); process.stdin.flush() *)
| Terminate             (* process.terminate() *)
| Kill.                 (* process.kill() *)

(** The global instance [gowin] (class [GowinProcess]) with its reader. *)
Record World := mk_World {
  process : option Popen;        (* self.process *)
  output_buffer : list string;   (* self.output_buffer *)
  prompt_ready : bool;           (* self.prompt_ready, an Event *)
  reader_thread : reader_state;  (* self.reader_thread and its local buf *)
  trace : list action
}.

Definition set_process (p : option Popen) (w : World) : World :=
  mk_World p (output_buffer w) (prompt_ready w) (reader_thread w) (trace w).

Definition set_output_buffer (b : list string) (w : World) : World :=
  mk_World (process w) b (prompt_ready w) (reader_thread w) (trace w).

Definition set_prompt_ready (f : bool) (w : World) : World :=
  mk_World (process w) (output_buffer w) f (reader_thread w) (trace w).

Definition set_reader_thread (r : reader_state) (w : World) : World :=
  mk_World (process w) (output_buffer w) (prompt_ready w) r (trace w).

Definition log (a : action) (w : World) : World :=
  mk_World (process w) (output_buffer w) (prompt_ready w) (reader_thread w)
           (trace w ++ [a]).

(** [GowinProcess.__init__] *)
Definition init : World := mk_World None [] false NotStarted [].

(** How a call ends: it returns a value or raises. *)
Inductive outcome (A : Type) :=
| Ret (a : A)
| Raise (e : exn).
Arguments Ret {A} a.
Arguments Raise {A} e.

Definition M (A : Type) : Type := World -> outcome A * World.

Definition ret {A} (a : A) : M A := fun w => (Ret a, w).

Definition raise {A} (e : exn) : M A := fun w => (Raise e, w).

Definition bind {A B} (m : M A) (k : A -> M B) : M B :=
  fun w => match m w with
           | (Ret a, w') => k a w'
           | (Raise e, w') => (Raise e, w')
           end.

Notation "x <- m ;; k" := (bind m (fun x => k))
  (at level 61, m at next level, right associativity).
Notation "m ;; k" := (bind m (fun _ => k))
  (at level 61, right associativity).

(** Read a field of the session. *)
Definition gets {A} (f : World -> A) : M A := fun w => (Ret (f w), w).

(** Update the session. *)
Definition modify (f : World -> World) : M unit := fun w => (Ret tt, f w).

(** [try: m  except C as e: h e], where [catches e] is [isinstance(e, C)]. *)
Definition try_except {A} (m : M A) (catches : exn -> bool) (h : exn -> M A)
  : M A :=
  fun w => match m w with
           | (Ret a, w') => (Ret a, w')
           | (Raise e, w') => if catches e then h e w' else (Raise e, w')
           end.

(** [try: m  finally: f].  The [finally] suite runs however [m] ended; if
    it raises, its exception replaces the outcome of [m]. *)
Definition try_finally {A} (m : M A) (f : M unit) : M A :=
  fun w => match m w with
           | (r, w') => match f w' with
                        | (Ret _, w'') => (r, w'')
                        | (Raise e, w'') => (Raise e, w'')
                        end
           end.

(** ** The reader thread, [GowinProcess.read_output] *)

Definition prompt_marker : string := "% ".

(** [is_running]: [self.process is not None and self.process.poll() is None] *)
Definition is_running (w : World) : bool :=
  match process w with
  | Some p => match poll p with None => true | Some _ => false end
  | None => false
  end.

(** [with self.output_lock: self.output_buffer.append(chunk)] *)
Definition emit (chunk : string) (w : World) : World :=
  set_output_buffer (output_buffer w ++ [chunk]) w.

(** What [self.process.stdout.read(1)] does. *)
Inductive read_result :=
| Got (ch : ascii)       (* returned the one-character string ch *)
| Eof                    (* returned "" *)
| ReadRaises (e : exn).  (* raised e *)

(** The suite after the loop: [if buf: append(buf)], then the thread
    returns. *)
Definition leftover (buf : string) (w : World) : World :=
  set_reader_thread Finished (if truthy buf then emit buf w else w).

(** The loop condition [self.process and self.process.poll() is None]:
    the thread enters [read(1)] or leaves the loop. *)
Definition loop_test (w : World) : World :=
  match reader_thread w with
  | Scanning buf =>
      if is_running w then set_reader_thread (Blocked buf) w
      else leftover buf w
  | _ => w
  end.

(** [read(1)] comes back with [r] and the rest of the loop body runs. *)
Definition loop_body (r : read_result) (w : World) : World :=
  match reader_thread w with
  | Blocked buf =>
      match r with
      | Eof =>
          (* if buf: append(buf); buf = "" -- break -- leftover of "" *)
          leftover "" (if truthy buf then emit buf w else w)
      | Got ch =>
          let buf := buf ++ chr ch in
          if Ascii.eqb ch newline then
            set_reader_thread (Scanning "") (emit buf w)
          else
            match find prompt_marker buf with
            | Some i =>
                let idx := i + 2 in
                let to_emit := slice_to idx buf in
                let rest := slice_from idx buf in
                set_prompt_ready true
                  (set_reader_thread (Scanning rest) (emit to_emit w))
            | None => set_reader_thread (Scanning buf) w
            end
      | ReadRaises e =>
          (* except Exception as e: append(f"\n[Reader error: {e}]\n") *)
          set_reader_thread Finished
            (if is_Exception e
             then emit (nl ++ "[Reader error: " ++ msg e ++ "]" ++ nl) w
             else w)
      end
  | _ => w
  end.

(** What happens concurrently with the caller: the child exits with a
    return code, the reader thread tests its loop condition, or its
    pending [read(1)] comes back. *)
Inductive event :=
| ChildExit (rc : Z)
| LoopTest
| ReadReturns (r : read_result).

Definition child_exit (rc : Z) (w : World) : World :=
  match process w with
  | Some p => match poll p with
              | None => set_process (Some (mk_Popen (Some rc))) w
              | Some _ => w
              end
  | None => w
  end.

Definition step (e : event) (w : World) : World :=
  match e with
  | ChildExit rc => child_exit rc w
  | LoopTest => loop_test w
  | ReadReturns r => loop_body r w
  end.

(** The world after the events [evs], oldest first. *)
Definition run (evs : list event) (w : World) : World :=
  fold_left (fun w e => step e w) evs w.

(** The events [evs] happen before the caller's next action. *)
Definition env (evs : list event) : M unit := modify (run evs).

(** The reader thread consuming the characters of [s] one by one. *)
Fixpoint reads (s : string) : list event :=
  match s with
  | EmptyString => []
  | String ch s' => LoopTest :: ReadReturns (Got ch) :: reads s'
  end.

(** ** Methods of [GowinProcess] run by the caller thread *)

(** [prompt_ready.clear()] *)
Definition prompt_clear : M unit :=
  modify (fun w => set_prompt_ready false (log Clear w)).

(** [get_output]: join the buffer and clear it, under the lock. *)
Definition get_output : M string :=
  fun w => (Ret (join (output_buffer w)), set_output_buffer [] (log Drain w)).

(** Evaluating [self.process.<name>] ([gowin.process.<name>]): the handle,
    or [AttributeError] when it is [None]. *)
Definition attr (name : string) : M Popen :=
  fun w => match process w with
           | Some p => (Ret p, w)
           | None =>
               (Raise (mk_exn AttributeError
                         ("'NoneType' object has no attribute '" ++ name ++ "'")),
                w)
           end.

(** A request to the child that the operating system answers with
    [answer]: [None] when it succeeds, [Some e] when it raises [e]. *)
Definition request (name : string) (a : action) (answer : option exn)
  : M unit :=
  _ <- attr name;;
  modify (log a);;
  match answer with
  | None => ret tt
  | Some e => raise e
  end.

(** What surrounds one call of [send_command]: the events between its
    atomic actions and the answer to its write. *)
Record schedule := mk_schedule {
  before_clear : list event;  (* after the is_running test *)
  before_drain : list event;  (* after prompt_ready.clear() *)
  before_write : list event;  (* after the first get_output() *)
  write_answer : option exn;  (* stdin.write(...); stdin.flush() *)
  during_wait : list event;   (* during prompt_ready.wait or time.sleep *)
  after_wait : list event     (* after wait returned, before get_output() *)
}.

(** [prompt_ready.wait(timeout=...)] while [evs] happen: true when the
    flag is set by the time the caller resumes, false on expiry. *)
Definition prompt_wait (evs : list event) : M bool :=
  env evs;; gets prompt_ready.

Definition not_running_message : string :=
  "Gowin process is not running. Start it first.".

Definition timeout_warning : string :=
  nl ++ "[Warning: Command may still be running (timeout)]".

(** What [Event.wait] raises for a timeout above [TIMEOUT_MAX]. *)
Definition timeout_too_large : exn :=
  mk_exn OverflowError "timeout value is too large".

(** [prompt_ready.wait(timeout=timeout)] for a timeout chosen by the
    caller: [Event.wait] reads the flag first and returns at once when it
    is set; otherwise it waits on its lock with the timeout, which raises
    [OverflowError] for a timeout above [TIMEOUT_MAX]. *)
Definition timed_wait (timeout : float) (evs : list event) : M bool :=
  signaled <- gets prompt_ready;;
  if signaled then prompt_wait evs
  else if timeout_accepted timeout then prompt_wait evs
  else raise timeout_too_large.

(** [send_command(command, wait_for_prompt, timeout)].  When the wait
    expires is read off the schedule; the value of [timeout] decides only
    whether the wait accepts it. *)
Definition send_command_timeout (s : schedule) (command : string)
    (wait_for_prompt : bool) (timeout : float) : M string :=
  running <- gets is_running;;
  if negb running then raise (mk_exn RuntimeError not_running_message)
  else
    env (before_clear s);;
    prompt_clear;;
    env (before_drain s);;
    _ <- get_output;;
    env (before_write s);;
    try_except
      (request "stdin" (Write (command ++ nl)) (write_answer s))
      is_Exception
      (fun e => raise (mk_exn RuntimeError ("Error sending command: " ++ msg e)));;
    if wait_for_prompt then
      signaled <- timed_wait timeout (during_wait s);;
      env (after_wait s);;
      if negb signaled then
        output <- get_output;;
        ret (output ++ timeout_warning)
      else get_output
    else
      env (during_wait s);;
      get_output.

(** The default of the parameter, [timeout: float = 30.0]. *)
Definition default_timeout : float := of_int 30.

(** [send_command(command, wait_for_prompt)], the call that leaves
    [timeout] to its default. *)
Definition send_command (s : schedule) (command : string)
    (wait_for_prompt : bool) : M string :=
  send_command_timeout s command wait_for_prompt default_timeout.

(** ** The tools *)

(** What surrounds one call of [start_gowin]. *)
Record start_oracle := mk_start_oracle {
  spawn_answer : option exn;   (* subprocess.Popen(...) *)
  thread_answer : option exn;  (* gowin.reader_thread.start() *)
  first_wait : list event;     (* during prompt_ready.wait(timeout=5.0) *)
  first_sleep : list event;    (* during time.sleep(0.5) *)
  priming : schedule           (* send_command("set tcl_interactive 1") *)
}.

(** [gowin.process = subprocess.Popen(...)] *)
Definition popen (answer : option exn) : M unit :=
  match answer with
  | None => modify (set_process (Some (mk_Popen None)))
  | Some e => raise e
  end.

(** [gowin.reader_thread = threading.Thread(...)] and
    [gowin.reader_thread.start()]: the new thread object replaces the old
    one, and runs unless [start()] raises. *)
Definition start_reader (answer : option exn) : M unit :=
  match answer with
  | None => modify (set_reader_thread (Scanning ""))
  | Some e => modify (set_reader_thread NotStarted);; raise e
  end.

(** [start_gowin]; the early [return] of the first handler is the [Some]
    of the intermediate result. *)
Definition start_gowin (o : start_oracle) : M string :=
  running <- gets is_running;;
  if running then ret "Gowin process is already running."
  else
    failed <- try_except
                (popen (spawn_answer o);; ret None)
                is_Exception
                (fun e => modify (set_process None);;
                          ret (Some ("Error starting process: " ++ msg e)));;
    match failed with
    | Some message => ret message
    | None =>
        prompt_clear;;
        start_reader (thread_answer o);;
        signaled <- prompt_wait (first_wait o);;
        (if negb signaled then env (first_sleep o) else ret tt);;
        try_except
          (output <- send_command_timeout (priming o) "set tcl_interactive 1"
                       true (of_int 5);;
           ret ("Gowin process started successfully." ++ nl ++ output))
          is_Exception
          (fun e => ret ("Gowin process started, but error setting interactive mode: "
                         ++ msg e))
    end.

(** What surrounds one [gowin.process.wait(timeout=2)]: the events during
    it and, possibly, an exception other than the expiry. *)
Record wait_oracle := mk_wait_oracle {
  during : list event;
  interrupt : option exn
}.

Definition timeout_expired : exn :=
  mk_exn TimeoutExpired
    "Command '['C:/Gowin/Gowin_V1.9.12_x64/IDE/bin/gw_sh.exe', '-no_gui']' timed out after 2 seconds".

(** [gowin.process.wait(timeout=2)]: returns at once when the child has
    already exited, returns when it exits during the wait, raises
    [TimeoutExpired] when it is still alive at the end. *)
Definition process_wait (o : wait_oracle) : M unit :=
  _ <- attr "wait";;
  env (during o);;
  match interrupt o with
  | Some e => raise e
  | None =>
      running <- gets is_running;;
      if running then raise timeout_expired else ret tt
  end.

(** What surrounds one call of [stop_gowin]. *)
Record stop_oracle := mk_stop_oracle {
  exit_schedule : schedule;         (* send_command("exit", False) *)
  exit_wait : wait_oracle;          (* first process.wait(timeout=2) *)
  terminate_answer : option exn;    (* process.terminate() *)
  terminate_wait : wait_oracle;     (* second process.wait(timeout=2) *)
  kill_answer : option exn;         (* process.kill() after both waits *)
  fallback_kill_answer : option exn (* process.kill() of the handler *)
}.

Definition stopped_message : string := "Gowin process stopped.".

(** [stop_gowin] *)
Definition stop_gowin (o : stop_oracle) : M string :=
  running <- gets is_running;;
  if negb running then ret "Gowin process is not running."
  else
    try_finally
      (try_except
         (_ <- send_command (exit_schedule o) "exit" false;;
          try_except
            (process_wait (exit_wait o))
            is_TimeoutExpired
            (fun _ =>
               request "terminate" Terminate (terminate_answer o);;
               try_except
                 (process_wait (terminate_wait o))
                 is_TimeoutExpired
                 (fun _ => request "kill" Kill (kill_answer o))))
         is_Exception
         (fun _ =>
            try_except
              (request "kill" Kill (fallback_kill_answer o))
              is_Exception
              (fun _ => ret tt)))
      (modify (set_process None);; prompt_clear);;
    ret stopped_message.







(** [run_synthesis] *)
Definition run_synthesis (s : schedule) : M string :=
  send_command_timeout s "run syn" true (of_int 300).



(** [send_tcl_command(command, timeout)] *)
Definition send_tcl_command_timeout (s : schedule) (command : string)
    (timeout : float) : M string :=
  send_command_timeout s command true timeout.

(** [send_tcl_command(command)], the call that leaves [timeout] to its
    default, [timeout: float = 30.0]. *)
Definition send_tcl_command (s : schedule) (command : string) : M string :=
  send_tcl_command_timeout s command default_timeout.


(** ** Notions used to state the properties *)

(** The chunks the reader thread appends to the buffer while [evs] happen
    from [w]: what the buffer holds afterwards beyond what it held. *)
Definition flushed (evs : list event) (w : World) : list string :=
  skipn (List.length (output_buffer w)) (output_buffer (run evs w)).

(** The four places where [read_output] appends to the buffer, by the
    shape of the chunk appended: a line through its terminator, a
    fragment through the prompt marker, a truthy rest of a fragment (at
    end of stream or after the loop), and the report of a read error. *)
Inductive chunk_shape : string -> Prop :=
| line_chunk (buf : string) : chunk_shape (buf ++ nl)
| prompt_chunk (pre : string) : chunk_shape (pre ++ prompt_marker)
| rest_chunk (buf : string) : truthy buf = true -> chunk_shape buf
| error_chunk (e : exn) :
    chunk_shape (nl ++ "[Reader error: " ++ msg e ++ "]" ++ nl).

(** The world of a running [send_command] right after its first
    [get_output()], the drain that precedes the write. *)
Definition drained_world (s : schedule) (w : World) : World :=
  snd (get_output
         (run (before_drain s) (snd (prompt_clear (run (before_clear s) w))))).

(** With [wait_for_prompt] true, the events between the drain that
    precedes the write and the drain that produces the result. *)
Definition since_drain (s : schedule) : list event :=
  before_write s ++ during_wait s ++ after_wait s.

(** The events of [evs] up to and including the one that sets the prompt
    flag; none when the flag is already set in [w]. *)
Fixpoint up_to_prompt (evs : list event) (w : World) : list event :=
  if prompt_ready w then []
  else match evs with
       | [] => []
       | e :: evs' => e :: up_to_prompt evs' (step e w)
       end.

(** The fragment the reader thread holds in its local [buf]; empty when
    the thread is not in its loop. *)
Definition pending (w : World) : string :=
  match reader_thread w with
  | Scanning buf | Blocked buf => buf
  | NotStarted | Finished => ""
  end.

(** A fragment with no prompt marker and no line terminator in it. *)
Definition clean (buf : string) : Prop :=
  find prompt_marker buf = None /\ find nl buf = None.

(** The child does not exit during the events. *)
Fixpoint child_stays (evs : list event) : bool :=
  match evs with
  | [] => true
  | ChildExit _ :: _ => false
  | _ :: evs' => child_stays evs'
  end.


(** The worlds [stop_gowin] passes through on a running session: after
    its ["exit"] command, after the first wait, and after the request to
    terminate and the second wait. *)
Definition after_exit (o : stop_oracle) (w : World) : World :=
  snd (send_command (exit_schedule o) "exit" false w).

Definition after_exit_wait (o : stop_oracle) (w : World) : World :=
  run (during (exit_wait o)) (after_exit o w).

Definition after_terminate_wait (o : stop_oracle) (w : World) : World :=
  run (during (terminate_wait o)) (log Terminate (after_exit_wait o w)).

(** The two failures of [send_command] and the exception each one ends
    in: no live process, and a write that raises [cause]. *)
Inductive send_fails (s : schedule) (w : World) : exn -> Prop :=
| fails_not_running :
    is_running w = false ->
    send_fails s w (mk_exn RuntimeError not_running_message)
| fails_write (cause : exn) :
    is_running w = true ->
    write_answer s = Some cause ->
    is_Exception cause = true ->
    send_fails s w (mk_exn RuntimeError ("Error sending command: " ++ msg cause)).

(** An answer of the operating system that does not raise outside the
    class [Exception]. *)
Definition ordinary (answer : option exn) : bool :=
  match answer with
  | None => true
  | Some e => is_Exception e
  end.

Definition ordinary_stop (o : stop_oracle) : bool :=
  ordinary (write_answer (exit_schedule o))
  && ordinary (interrupt (exit_wait o))
  && ordinary (terminate_answer o)
  && ordinary (interrupt (terminate_wait o))
  && ordinary (kill_answer o)
  && ordinary (fallback_kill_answer o).



(** A computation that raises only exceptions of class [Exception]. *)
Definition safe {A} (m : M A) : Prop :=
  forall w e w', m w = (Raise e, w') -> is_Exception e = true.

(** A computation that always returns. *)
Definition returns {A} (m : M A) : Prop :=
  forall w, exists a w', m w = (Ret a, w').

(** Sample worlds and oracles. *)

(** A started session: live child, reader at its loop head, one chunk
    left in the buffer by earlier output, flag still set. *)
Definition live : World :=
  mk_World (Some (mk_Popen None)) ["stale" ++ nl] true (Scanning "") [].

(** A session right after its child and its reader were started. *)
Definition fresh : World :=
  mk_World (Some (mk_Popen None)) [] false (Scanning "") [].

(** The child prints its banner and first prompt, then answers the
    priming command. *)
Definition normal_start : start_oracle :=
  mk_start_oracle None None (reads ("Gowin Shell" ++ nl ++ "% ")) []
    (mk_schedule [] [] [] None (reads ("1" ++ nl ++ "% ")) []).

(** A session whose child has exited with code 0. *)
Definition exited : World :=
  mk_World (Some (mk_Popen (Some 0%Z))) [] false Finished [].

(** Nothing happens around the call and the write succeeds. *)
Definition quiet : schedule := mk_schedule [] [] [] None [] [].

(** The write raises [BrokenPipeError], a subclass of [OSError]. *)
Definition broken_pipe : schedule :=
  mk_schedule [] [] [] (Some (mk_exn OSError "[Errno 32] Broken pipe")) [] [].

(** The child answers ["50% done\n"]; the caller resumes only after the
    reader has flushed the rest of the line. *)
Definition progress_line : schedule :=
  mk_schedule [] [] [] None (reads "50% ") (reads ("done" ++ nl)).

(** The child prints ["Running"] and no prompt before the wait expires. *)
Definition slow : schedule :=
  mk_schedule [] [] [] None (reads ("Running" ++ nl ++ "pl")) [].

(** The child ignores ["exit"] and [terminate()] and is killed. *)
Definition stubborn : stop_oracle :=
  mk_stop_oracle quiet (mk_wait_oracle [] None) None
                 (mk_wait_oracle [] None) None None.

(** The child leaves on ["exit"] during the first wait. *)
Definition clean_stop : stop_oracle :=
  mk_stop_oracle quiet (mk_wait_oracle [ChildExit 0%Z] None) None
                 (mk_wait_oracle [] None) None None.

(** The write of ["exit"] fails and so does the fallback [kill()]. *)
Definition failing_stop : stop_oracle :=
  mk_stop_oracle broken_pipe (mk_wait_oracle [] None) None
                 (mk_wait_oracle [] None) None
                 (Some (mk_exn OSError "[Errno 13] Permission denied")).


(** The executable is missing. *)
Definition missing_executable : start_oracle :=
  mk_start_oracle (Some (mk_exn OSError "[Errno 2] No such file or directory"))
                  None [] [] quiet.

(** * Properties *)

(** ** Facts about the string primitives *)

Section StringFacts.

Lemma append_empty_r (s : string) : s ++ "" = s.
Proof. induction s as [|c s IH]; simpl; [reflexivity | now rewrite IH]. Qed.

Lemma append_assoc (a b c : string) : (a ++ b) ++ c = a ++ b ++ c.
Proof. induction a as [|x a IH]; simpl; [reflexivity | now rewrite IH]. Qed.

Lemma length_app (a b : string) :
  String.length (a ++ b) = String.length a + String.length b.
Proof. induction a as [|x a IH]; simpl; [reflexivity | now rewrite IH]. Qed.

Lemma prefix_split (p s : string) :
  prefix p s = true <-> exists r, s = p ++ r.
Proof.
  revert s; induction p as [|c p IH]; intros s; simpl.
  - split; [intros _; now exists s | intros _; now destruct s].
  - destruct s as [|d s].
    + split; [discriminate | intros [r Hr]; discriminate].
    + simpl. destruct (ascii_dec c d) as [->|Hcd].
      * rewrite IH. split; intros [r Hr]; exists r; congruence.
      * split; [discriminate | intros [r Hr]; congruence].
Qed.

Lemma find_cons (sub : string) (c : ascii) (s : string) :
  find sub (String c s) =
  if prefix sub (String c s) then Some 0 else option_map S (find sub s).
Proof.
  unfold find; cbn [index].
  destruct (prefix sub (String c s)); [reflexivity|].
  destruct (index 0 sub s); reflexivity.
Qed.

Lemma find_empty (sub : string) (i : nat) :
  find sub "" = Some i -> sub = "" /\ i = 0.
Proof.
  unfold find; simpl; destruct sub; [intros [= <-]; auto | discriminate].
Qed.

Lemma slice_to_app (a b : string) : slice_to (String.length a) (a ++ b) = a.
Proof.
  unfold slice_to; induction a as [|x a IH]; simpl.
  - destruct b; reflexivity.
  - now rewrite IH.
Qed.

Lemma substring_all (s : string) : substring 0 (String.length s) s = s.
Proof. induction s as [|c s IH]; simpl; [reflexivity | now rewrite IH]. Qed.

Lemma slice_from_app (a b : string) :
  slice_from (String.length a) (a ++ b) = b.
Proof.
  unfold slice_from; rewrite length_app.
  replace (String.length a + String.length b - String.length a)
    with (String.length b) by lia.
  induction a as [|x a IH]; simpl; [apply substring_all | exact IH].
Qed.

Lemma slice_to_cons (i : nat) (c : ascii) (s : string) :
  slice_to (S i) (String c s) = String c (slice_to i s).
Proof. reflexivity. Qed.

Lemma slice_from_cons (i : nat) (c : ascii) (s : string) :
  slice_from (S i) (String c s) = slice_from i s.
Proof. reflexivity. Qed.

(** [find] answers an occurrence: the string splits there, and the two
    slices of the source are the part through the occurrence and the
    part after it. *)
Lemma find_Some_split (sub s : string) (i : nat) :
  find sub s = Some i ->
  exists pre rest,
    s = pre ++ sub ++ rest /\ String.length pre = i /\
    slice_to (i + String.length sub) s = pre ++ sub /\
    slice_from (i + String.length sub) s = rest.
Proof.
  revert i; induction s as [|c s IH]; intros i H.
  - apply find_empty in H as [-> ->]. exists "", "". repeat split.
  - rewrite find_cons in H.
    destruct (prefix sub (String c s)) eqn:Hp.
    + injection H as <-. apply prefix_split in Hp as [r Hr].
      exists "", r. rewrite Hr. simpl.
      repeat split; [apply slice_to_app | apply slice_from_app].
    + destruct (find sub s) as [j|] eqn:Hf; [|discriminate].
      injection H as <-.
      destruct (IH j eq_refl) as (pre & rest & Hs & Hl & Hto & Hfrom).
      exists (String c pre), rest. simpl.
      rewrite slice_to_cons, slice_from_cons, Hto, Hfrom, Hl.
      repeat split. now rewrite Hs at 1.
Qed.

(** No occurrence starts before the one [find] answers. *)
Lemma find_least (sub s : string) (i : nat) (a b : string) :
  find sub s = Some i -> s = a ++ sub ++ b -> i <= String.length a.
Proof.
  revert i a; induction s as [|c s IH]; intros i a H Hs.
  - apply find_empty in H as [_ ->]. lia.
  - rewrite find_cons in H.
    destruct (prefix sub (String c s)) eqn:Hp.
    + injection H as <-. lia.
    + destruct (find sub s) as [j|] eqn:Hf; [|discriminate].
      injection H as <-.
      destruct a as [|x a]; simpl in Hs.
      * assert (prefix sub (String c s) = true) as Hp'
          by (apply prefix_split; now exists b).
        congruence.
      * injection Hs as _ Hs. simpl. specialize (IH j a eq_refl Hs). lia.
Qed.

(** [find] misses no occurrence. *)
Lemma find_complete (sub s a b : string) :
  s = a ++ sub ++ b -> exists i, find sub s = Some i.
Proof.
  revert a; induction s as [|c s IH]; intros a Hs.
  - destruct a; [|discriminate]. destruct sub; [|discriminate].
    now exists 0.
  - rewrite find_cons. destruct (prefix sub (String c s)) eqn:Hp.
    + now exists 0.
    + destruct a as [|x a]; simpl in Hs.
      * assert (prefix sub (String c s) = true) as Hp'
          by (apply prefix_split; now exists b).
        congruence.
      * injection Hs as _ Hs. destruct (IH a Hs) as [j ->].
        now exists (S j).
Qed.

Lemma truthy_nonempty (s : string) : truthy s = true -> s <> "".
Proof. destruct s; [discriminate | intros _; discriminate]. Qed.

Lemma append_nonempty_r (a b : string) : b <> "" -> a ++ b <> "".
Proof.
  destruct a; simpl; [auto | intros _; discriminate].
Qed.

Lemma join_app (l1 l2 : list string) : join (l1 ++ l2) = join l1 ++ join l2.
Proof.
  unfold join; induction l1 as [|x l1 IH]; simpl; [reflexivity|].
  destruct l1 as [|y l1].
  - simpl. destruct l2 as [|z l2]; simpl.
    + now rewrite append_empty_r.
    + reflexivity.
  - simpl in *. rewrite IH. now rewrite append_assoc.
Qed.

End StringFacts.

(** ** Facts about the concurrent events *)

Section EventFacts.

Ltac step_cases e w :=
  destruct e as [rc| |[ch| |ex]];
  unfold step, child_exit, loop_test, loop_body, leftover, emit, is_running;
  simpl;
  repeat match goal with
         | |- context [match process w with _ => _ end] =>
             destruct (process w) as [[[?|]]|]; simpl
         | |- context [match reader_thread w with _ => _ end] =>
             destruct (reader_thread w); simpl
         | |- context [if truthy ?b then _ else _] =>
             destruct (truthy b) eqn:?; simpl
         | |- context [if Ascii.eqb ?a ?b then _ else _] =>
             destruct (Ascii.eqb a b) eqn:?; simpl
         | |- context [match find ?a ?b with _ => _ end] =>
             destruct (find a b) eqn:?; simpl
         | |- context [if is_Exception ?x then _ else _] =>
             destruct (is_Exception x) eqn:?; simpl
         end.

Lemma run_app (e1 e2 : list event) (w : World) :
  run (e1 ++ e2) w = run e2 (run e1 w).
Proof. apply fold_left_app. Qed.

Lemma run_cons (e : event) (evs : list event) (w : World) :
  run (e :: evs) w = run evs (step e w).
Proof. reflexivity. Qed.

(** The events leave the ghost trace alone and commute with logging. *)
Lemma step_log (e : event) (a : action) (w : World) :
  step e (log a w) = log a (step e w).
Proof. step_cases e w; reflexivity. Qed.

Lemma run_log (evs : list event) (a : action) (w : World) :
  run evs (log a w) = log a (run evs w).
Proof.
  revert w; induction evs as [|e evs IH]; intros w; [reflexivity|].
  rewrite !run_cons, step_log. apply IH.
Qed.

Lemma step_trace (e : event) (w : World) : trace (step e w) = trace w.
Proof. step_cases e w; reflexivity. Qed.

(** The events never clear the handle. *)
Lemma step_process (e : event) (w : World) (p : Popen) :
  process w = Some p -> exists p', process (step e w) = Some p'.
Proof.
  intros H. destruct e as [rc| |r]; simpl.
  - unfold child_exit. rewrite H. destruct (poll p); simpl; eauto.
  - unfold loop_test, leftover, emit.
    destruct (reader_thread w); simpl; eauto.
    destruct (is_running w); simpl; eauto.
    destruct (truthy buf); simpl; eauto.
  - unfold loop_body, leftover, emit.
    destruct (reader_thread w); simpl; eauto.
    destruct r as [ch| |ex]; simpl.
    + destruct (Ascii.eqb ch newline); simpl; eauto.
      destruct (find prompt_marker (buf ++ chr ch)); simpl; eauto.
    + destruct (truthy buf); simpl; eauto.
    + destruct (is_Exception ex); simpl; eauto.
Qed.

(** The events never create a handle either. *)
Lemma step_no_process (e : event) (w : World) :
  process w = None -> process (step e w) = None.
Proof.
  intros H. destruct e as [rc| |r]; simpl.
  - unfold child_exit. now rewrite H.
  - unfold loop_test, leftover, emit, is_running. rewrite H.
    destruct (reader_thread w); simpl; auto.
    destruct (truthy buf); simpl; auto.
  - unfold loop_body, leftover, emit.
    destruct (reader_thread w); simpl; auto.
    destruct r as [ch| |ex]; simpl.
    + destruct (Ascii.eqb ch newline); simpl; auto.
      destruct (find prompt_marker (buf ++ chr ch)); simpl; auto.
    + destruct (truthy buf); simpl; auto.
    + destruct (is_Exception ex); simpl; auto.
Qed.

Lemma run_no_process (evs : list event) (w : World) :
  process w = None -> process (run evs w) = None.
Proof.
  revert w; induction evs as [|e evs IH]; intros w H; [exact H|].
  rewrite run_cons. now apply IH, step_no_process.
Qed.

Lemma run_process (evs : list event) (w : World) (p : Popen) :
  process w = Some p -> exists p', process (run evs w) = Some p'.
Proof.
  revert w p; induction evs as [|e evs IH]; intros w p H; [eauto|].
  rewrite run_cons. destruct (step_process e w p H) as [p' Hp'].
  eapply IH, Hp'.
Qed.

Lemma chunk_shape_nonempty (chunk : string) :
  chunk_shape chunk -> chunk <> "".
Proof.
  intros [buf|pre|buf Hb|e].
  - apply append_nonempty_r. discriminate.
  - apply append_nonempty_r. discriminate.
  - now apply truthy_nonempty.
  - discriminate.
Qed.

(** One event appends at most one chunk to the buffer, of one of the
    four shapes. *)
Lemma step_emits (e : event) (w : World) :
  output_buffer (step e w) = output_buffer w \/
  exists chunk,
    output_buffer (step e w) = (output_buffer w ++ [chunk])%list /\
    chunk_shape chunk.
Proof.
  destruct e as [rc| |r]; simpl.
  - left. unfold child_exit.
    destruct (process w) as [p|]; [destruct (poll p)|]; reflexivity.
  - unfold loop_test, leftover.
    destruct (reader_thread w); auto.
    destruct (is_running w); auto.
    destruct (truthy buf) eqn:Hb; auto.
    right. exists buf. split; [reflexivity | now apply rest_chunk].
  - unfold loop_body, leftover.
    destruct (reader_thread w); auto.
    destruct r as [ch| |ex].
    + destruct (Ascii.eqb ch newline) eqn:Hnl.
      * right. exists (buf ++ chr ch). split; [reflexivity|].
        apply Ascii.eqb_eq in Hnl. subst ch. apply line_chunk.
      * destruct (find prompt_marker (buf ++ chr ch)) as [i|] eqn:Hf; auto.
        destruct (find_Some_split _ _ _ Hf) as (pre & rest & _ & _ & Hto & _).
        right. exists (slice_to (i + 2) (buf ++ chr ch)).
        split; [reflexivity|].
        change 2 with (String.length prompt_marker). rewrite Hto.
        apply prompt_chunk.
    + destruct (truthy buf) eqn:Hb; auto.
      right. exists buf. split; [reflexivity | now apply rest_chunk].
    + destruct (is_Exception ex); auto.
      right. eexists. split; [reflexivity | apply error_chunk].
Qed.

Lemma run_emits (evs : list event) (w : World) :
  exists chunks,
    output_buffer (run evs w) = (output_buffer w ++ chunks)%list /\
    Forall chunk_shape chunks.
Proof.
  revert w; induction evs as [|e evs IH]; intros w.
  - exists []. split; [now rewrite app_nil_r | constructor].
  - rewrite run_cons. destruct (IH (step e w)) as (chunks & Hb & Hne).
    destruct (step_emits e w) as [He | (chunk & He & Hc)]; rewrite He in Hb.
    + now exists chunks.
    + exists (chunk :: chunks). split; [|now constructor].
      now rewrite Hb, <- app_assoc.
Qed.

(** [flushed] is what the events add to the buffer. *)
Lemma flushed_spec (evs : list event) (w : World) :
  output_buffer (run evs w) = (output_buffer w ++ flushed evs w)%list.
Proof.
  unfold flushed. destruct (run_emits evs w) as (chunks & -> & _).
  rewrite skipn_app, skipn_all, Nat.sub_diag. reflexivity.
Qed.

Lemma flushed_shapes (evs : list event) (w : World) :
  Forall chunk_shape (flushed evs w).
Proof.
  destruct (run_emits evs w) as (chunks & Hb & Hne).
  rewrite flushed_spec in Hb. apply app_inv_head in Hb. now rewrite Hb.
Qed.

Lemma flushed_app (e1 e2 : list event) (w : World) :
  flushed (e1 ++ e2) w = (flushed e1 w ++ flushed e2 (run e1 w))%list.
Proof.
  apply (app_inv_head (output_buffer w)).
  rewrite <- flushed_spec, run_app, app_assoc, <- !flushed_spec.
  reflexivity.
Qed.

Lemma flushed_from_empty (evs : list event) (w : World) :
  output_buffer w = [] -> output_buffer (run evs w) = flushed evs w.
Proof. intros H. now rewrite flushed_spec, H. Qed.

(** The chunks flushed do not depend on the ghost trace. *)
Lemma flushed_log (evs : list event) (a : action) (w : World) :
  flushed evs (log a w) = flushed evs w.
Proof. unfold flushed. now rewrite run_log. Qed.

(** [up_to_prompt] cuts the events in two. *)
Lemma up_to_prompt_split (evs : list event) (w : World) :
  exists later, evs = (up_to_prompt evs w ++ later)%list.
Proof.
  revert w; induction evs as [|e evs IH]; intros w; simpl.
  - exists []. now destruct (prompt_ready w).
  - destruct (prompt_ready w).
    + now exists (e :: evs).
    + destruct (IH (step e w)) as [later Hl].
      exists later. simpl. now rewrite <- Hl.
Qed.

End EventFacts.

(** ** Facts about [send_command] *)

Section SendFacts.

Lemma is_running_process (w : World) :
  is_running w = true -> exists p, process w = Some p.
Proof.
  unfold is_running. destruct (process w) as [p|]; [eauto | discriminate].
Qed.

Lemma drained_process (s : schedule) (w : World) (p : Popen) :
  process w = Some p ->
  exists p', process (run (before_write s) (drained_world s w)) = Some p'.
Proof.
  intros H. destruct (run_process (before_clear s) w p H) as [p1 H1].
  destruct (run_process (before_drain s)
              (snd (prompt_clear (run (before_clear s) w))) p1 H1) as [p2 H2].
  apply (run_process (before_write s) (drained_world s w) p2 H2).
Qed.

Lemma drained_empty (s : schedule) (w : World) :
  output_buffer (drained_world s w) = [].
Proof. reflexivity. Qed.

(** The timeouts the source passes are accepted. *)
Lemma source_timeouts_accepted :
  timeout_accepted default_timeout = true /\
  timeout_accepted (of_int 5) = true /\
  timeout_accepted (of_int 300) = true /\
  timeout_accepted (of_int 600) = true.
Proof. repeat split. Qed.

(** The timed wait is the plain wait when the timeout is accepted or the
    flag is already set, and raises otherwise. *)
Lemma timed_wait_waits (timeout : float) (evs : list event) (w : World) :
  timeout_accepted timeout = true \/ prompt_ready w = true ->
  timed_wait timeout evs w = prompt_wait evs w.
Proof.
  intros H. unfold timed_wait, bind, gets.
  destruct (prompt_ready w); [reflexivity|].
  destruct (timeout_accepted timeout); [reflexivity|].
  now destruct H.
Qed.

Lemma timed_wait_raises (timeout : float) (evs : list event) (w : World) :
  timeout_accepted timeout = false ->
  prompt_ready w = false ->
  timed_wait timeout evs w = (Raise timeout_too_large, w).
Proof.
  intros Ht Hf. unfold timed_wait, bind, gets. now rewrite Hf, Ht.
Qed.

(** The call up to its write, when the session is running and the write
    succeeds: what is left to run is the wait and the last drain. *)
Lemma send_reaches_wait (s : schedule) (command : string)
    (wait_for_prompt : bool) (timeout : float) (w : World) :
  is_running w = true ->
  write_answer s = None ->
  send_command_timeout s command wait_for_prompt timeout w =
  (if wait_for_prompt then
     signaled <- timed_wait timeout (during_wait s);;
     env (after_wait s);;
     if negb signaled then
       output <- get_output;;
       ret (output ++ timeout_warning)
     else get_output
   else
     env (during_wait s);;
     get_output)
    (log (Write (command ++ nl)) (run (before_write s) (drained_world s w))).
Proof.
  intros Hrun Hwrite.
  destruct (is_running_process w Hrun) as [p Hp].
  destruct (drained_process s w p Hp) as [p' Hp'].
  unfold send_command_timeout, bind at 1, gets. rewrite Hrun. simpl.
  unfold bind at 1, env, modify. unfold bind at 1, prompt_clear, modify.
  unfold bind at 1. unfold bind at 1, get_output at 1.
  unfold bind at 1. unfold bind at 1, try_except, request, bind at 1, attr.
  unfold drained_world in Hp'. simpl in Hp'. simpl. rewrite Hp'.
  unfold bind at 1, modify. rewrite Hwrite. reflexivity.
Qed.

(** A call that finds the session running, whose write succeeds and
    whose timed wait does not raise: the result is the buffer at the last
    drain, with the warning appended when the flag was not set at the end
    of the wait. *)
Lemma send_timeout_waits (s : schedule) (command : string) (timeout : float)
    (w : World) :
  is_running w = true ->
  write_answer s = None ->
  timeout_accepted timeout = true \/
  prompt_ready (run (before_write s) (drained_world s w)) = true ->
  let w2 := run (during_wait s)
              (log (Write (command ++ nl))
                 (run (before_write s) (drained_world s w))) in
  let w3 := run (after_wait s) w2 in
  send_command_timeout s command true timeout w =
  (Ret (if prompt_ready w2 then join (output_buffer w3)
        else join (output_buffer w3) ++ timeout_warning),
   set_output_buffer [] (log Drain w3)).
Proof.
  intros Hrun Hwrite Hwait.
  rewrite send_reaches_wait by assumption.
  unfold bind at 1. rewrite timed_wait_waits by exact Hwait.
  unfold prompt_wait, bind, env, modify, gets, get_output, ret. simpl.
  match goal with |- context [negb (prompt_ready ?x)] =>
    destruct (prompt_ready x) end; reflexivity.
Qed.

(** A call that finds the session running and whose write succeeds, with
    a timeout the wait rejects and the flag unset at the start of the
    wait: the error of the wait leaves the function after the write. *)
Lemma send_timeout_overflows (s : schedule) (command : string)
    (timeout : float) (w : World) :
  is_running w = true ->
  write_answer s = None ->
  timeout_accepted timeout = false ->
  prompt_ready (run (before_write s) (drained_world s w)) = false ->
  send_command_timeout s command true timeout w =
  (Raise timeout_too_large,
   log (Write (command ++ nl)) (run (before_write s) (drained_world s w))).
Proof.
  intros Hrun Hwrite Ht Hflag.
  rewrite send_reaches_wait by assumption.
  unfold bind at 1. now rewrite timed_wait_raises.
Qed.

(** The same call without waiting for the prompt. *)
Lemma send_timeout_sleeps (s : schedule) (command : string) (timeout : float)
    (w : World) :
  is_running w = true ->
  write_answer s = None ->
  let w2 := run (during_wait s)
              (log (Write (command ++ nl))
                 (run (before_write s) (drained_world s w))) in
  send_command_timeout s command false timeout w
  = (Ret (join (output_buffer w2)), set_output_buffer [] (log Drain w2)).
Proof.
  intros Hrun Hwrite. rewrite send_reaches_wait by assumption. reflexivity.
Qed.

(** A call without a live process raises at once. *)
Lemma send_timeout_not_running (s : schedule) (command : string)
    (wait_for_prompt : bool) (timeout : float) (w : World) :
  is_running w = false ->
  send_command_timeout s command wait_for_prompt timeout w
  = (Raise (mk_exn RuntimeError not_running_message), w).
Proof. intros H. unfold send_command_timeout, bind, gets. now rewrite H. Qed.

(** A call whose write raises [cause] raises [RuntimeError] in turn. *)
Lemma send_timeout_write_fails (s : schedule) (command : string)
    (wait_for_prompt : bool) (timeout : float) (w : World) (cause : exn) :
  is_running w = true ->
  write_answer s = Some cause ->
  is_Exception cause = true ->
  send_command_timeout s command wait_for_prompt timeout w
  = (Raise (mk_exn RuntimeError ("Error sending command: " ++ msg cause)),
     log (Write (command ++ nl)) (run (before_write s) (drained_world s w))).
Proof.
  intros Hrun Hwrite Hexc.
  destruct (is_running_process w Hrun) as [p Hp].
  destruct (drained_process s w p Hp) as [p' Hp'].
  unfold send_command_timeout, bind, gets. rewrite Hrun. simpl.
  unfold try_except, request, bind, attr.
  unfold drained_world in Hp'. simpl in Hp'. rewrite Hp'.
  rewrite Hwrite. simpl. now rewrite Hexc.
Qed.

(** With an ordinary answer to the write, the call raises only for one
    of its two failures or for a timeout that the wait rejects. *)
Lemma send_timeout_raises (s : schedule) (command : string)
    (wait_for_prompt : bool) (timeout : float) (w w' : World) (e : exn) :
  ordinary (write_answer s) = true ->
  send_command_timeout s command wait_for_prompt timeout w = (Raise e, w') ->
  send_fails s w e \/
  (e = timeout_too_large /\ wait_for_prompt = true /\
   timeout_accepted timeout = false /\ is_running w = true /\
   write_answer s = None /\
   prompt_ready (run (before_write s) (drained_world s w)) = false).
Proof.
  intros Hord H. destruct (is_running w) eqn:Hrun.
  - destruct (write_answer s) as [cause|] eqn:Hwrite.
    + simpl in Hord. left.
      rewrite (send_timeout_write_fails s command wait_for_prompt timeout w
                 cause Hrun Hwrite Hord) in H.
      injection H as <- _. now apply fails_write.
    + destruct wait_for_prompt.
      * destruct (timeout_accepted timeout) eqn:Ht.
        { rewrite send_timeout_waits in H by auto. discriminate. }
        destruct (prompt_ready (run (before_write s) (drained_world s w)))
          eqn:Hflag.
        { rewrite send_timeout_waits in H by auto. discriminate. }
        rewrite send_timeout_overflows in H by assumption.
        injection H as <- _. right. repeat split; assumption.
      * rewrite send_timeout_sleeps in H by assumption. discriminate.
  - rewrite send_timeout_not_running in H by assumption.
    injection H as <- _. left. now apply fails_not_running.
Qed.

(** The facts above for the call with the default timeout. *)
Lemma send_command_waits (s : schedule) (command : string) (w : World) :
  is_running w = true ->
  write_answer s = None ->
  let w2 := run (during_wait s)
              (log (Write (command ++ nl))
                 (run (before_write s) (drained_world s w))) in
  let w3 := run (after_wait s) w2 in
  send_command s command true w =
  (Ret (if prompt_ready w2 then join (output_buffer w3)
        else join (output_buffer w3) ++ timeout_warning),
   set_output_buffer [] (log Drain w3)).
Proof.
  intros Hrun Hwrite. unfold send_command.
  apply send_timeout_waits; auto.
Qed.

Lemma send_command_sleeps (s : schedule) (command : string) (w : World) :
  is_running w = true ->
  write_answer s = None ->
  exists w', send_command s command false w
             = (Ret (join (output_buffer w')), set_output_buffer [] (log Drain w')).
Proof.
  intros Hrun Hwrite. unfold send_command.
  rewrite send_timeout_sleeps by assumption. eexists. reflexivity.
Qed.

(** What the last drain of a waiting call finds in the buffer. *)
Lemma last_drain_buffer (s : schedule) (a : action) (w : World) :
  output_buffer
    (run (after_wait s)
       (run (during_wait s) (log a (run (before_write s) (drained_world s w)))))
  = flushed (since_drain s) (drained_world s w).
Proof.
  rewrite !run_log. change (output_buffer (log a ?x)) with (output_buffer x).
  rewrite <- !run_app. apply flushed_from_empty, drained_empty.
Qed.

(** Whether the wait of a waiting call ends with the flag set. *)
Lemma wait_flag (s : schedule) (a : action) (w : World) :
  prompt_ready
    (run (during_wait s) (log a (run (before_write s) (drained_world s w))))
  = prompt_ready (run (before_write s ++ during_wait s) (drained_world s w)).
Proof. now rewrite !run_log, run_app. Qed.

Lemma send_command_not_running (s : schedule) (command : string)
    (wait_for_prompt : bool) (w : World) :
  is_running w = false ->
  send_command s command wait_for_prompt w
  = (Raise (mk_exn RuntimeError not_running_message), w).
Proof. intros H. now apply send_timeout_not_running. Qed.

Lemma send_command_write_fails (s : schedule) (command : string)
    (wait_for_prompt : bool) (w : World) (cause : exn) :
  is_running w = true ->
  write_answer s = Some cause ->
  is_Exception cause = true ->
  fst (send_command s command wait_for_prompt w)
  = Raise (mk_exn RuntimeError ("Error sending command: " ++ msg cause)).
Proof.
  intros Hrun Hwrite Hexc. unfold send_command.
  now rewrite (send_timeout_write_fails s command wait_for_prompt
                 default_timeout w cause Hrun Hwrite Hexc).
Qed.

(** With an ordinary answer to the write and an accepted timeout, the
    call raises only for one of its two failures. *)
Lemma send_accepted_raises (s : schedule) (command : string)
    (wait_for_prompt : bool) (timeout : float) (w w' : World) (e : exn) :
  ordinary (write_answer s) = true ->
  timeout_accepted timeout = true ->
  send_command_timeout s command wait_for_prompt timeout w = (Raise e, w') ->
  send_fails s w e.
Proof.
  intros Hord Ht H.
  destruct (send_timeout_raises _ _ _ _ _ _ _ Hord H)
    as [Hf | (_ & _ & Hno & _)]; [exact Hf | congruence].
Qed.

Lemma send_command_raises (s : schedule) (command : string)
    (wait_for_prompt : bool) (w w' : World) (e : exn) :
  ordinary (write_answer s) = true ->
  send_command s command wait_for_prompt w = (Raise e, w') ->
  send_fails s w e.
Proof.
  intros Hord H. eapply send_accepted_raises; [exact Hord | | exact H].
  reflexivity.
Qed.

Lemma send_fails_Exception (s : schedule) (w : World) (e : exn) :
  send_fails s w e -> is_Exception e = true.
Proof. intros [|]; reflexivity. Qed.

End SendFacts.

(** ** Facts about exceptions in the tools *)

Section ControlFacts.

Lemma safe_ret {A} (a : A) : safe (ret a).
Proof. intros w e w' H. discriminate. Qed.

Lemma safe_modify (f : World -> World) : safe (modify f).
Proof. intros w e w' H. discriminate. Qed.

Lemma safe_gets {A} (f : World -> A) : safe (gets f).
Proof. intros w e w' H. discriminate. Qed.

Lemma safe_raise {A} (e : exn) : is_Exception e = true -> safe (@raise A e).
Proof. intros He w e' w' H. injection H as <- _. exact He. Qed.

Lemma safe_bind {A B} (m : M A) (k : A -> M B) :
  safe m -> (forall a, safe (k a)) -> safe (bind m k).
Proof.
  intros Hm Hk w e w' H. unfold bind in H.
  destruct (m w) as [[a|e1] w1] eqn:Hmw.
  - eapply Hk, H.
  - injection H as <- _. eapply Hm, Hmw.
Qed.

Lemma safe_try_except {A} (m : M A) (catches : exn -> bool) (h : exn -> M A) :
  safe m -> (forall e, safe (h e)) -> safe (try_except m catches h).
Proof.
  intros Hm Hh w e w' H. unfold try_except in H.
  destruct (m w) as [[a|e1] w1] eqn:Hmw; [discriminate|].
  destruct (catches e1).
  - eapply Hh, H.
  - injection H as <- _. eapply Hm, Hmw.
Qed.

Lemma safe_attr (name : string) : safe (attr name).
Proof.
  intros w e w' H. unfold attr in H.
  destruct (process w); [discriminate|]. now injection H as <- _.
Qed.

Lemma safe_request (name : string) (a : action) (answer : option exn) :
  ordinary answer = true -> safe (request name a answer).
Proof.
  intros Hord. unfold request.
  apply safe_bind; [apply safe_attr | intros _].
  apply safe_bind; [apply safe_modify | intros _].
  destruct answer as [e|]; [now apply safe_raise | apply safe_ret].
Qed.

Lemma safe_process_wait (o : wait_oracle) :
  ordinary (interrupt o) = true -> safe (process_wait o).
Proof.
  intros Hord. unfold process_wait.
  apply safe_bind; [apply safe_attr | intros _].
  apply safe_bind; [apply safe_modify | intros _].
  destruct (interrupt o) as [e|]; [now apply safe_raise|].
  apply safe_bind; [apply safe_gets | intros [|]].
  - now apply safe_raise.
  - apply safe_ret.
Qed.

Lemma safe_send_command (s : schedule) (command : string)
    (wait_for_prompt : bool) :
  ordinary (write_answer s) = true ->
  safe (send_command s command wait_for_prompt).
Proof.
  intros Hord w e w' H.
  eapply send_fails_Exception, send_command_raises; eassumption.
Qed.

(** A handler for [Exception] around a safe body that itself returns
    makes the whole statement return. *)
Lemma try_except_returns {A} (m : M A) (h : exn -> M A) :
  safe m -> (forall e, returns (h e)) -> returns (try_except m is_Exception h).
Proof.
  intros Hm Hh w. unfold try_except.
  destruct (m w) as [[a|e] w1] eqn:Hmw; [eauto|].
  rewrite (Hm _ _ _ Hmw). apply Hh.
Qed.

(** The [finally] suite of [stop_gowin]. *)
Lemma cleanup_runs {A} (m : M A) (w : World) :
  try_finally m (modify (set_process None);; prompt_clear) w
  = (fst (m w),
     set_prompt_ready false (log Clear (set_process None (snd (m w))))).
Proof. unfold try_finally. destruct (m w) as [r w1]. reflexivity. Qed.

(** The guarded part of [stop_gowin] returns when all answers are
    ordinary. *)
Lemma shutdown_returns (o : stop_oracle) :
  ordinary_stop o = true ->
  returns
    (try_except
       (_ <- send_command (exit_schedule o) "exit" false;;
        try_except
          (process_wait (exit_wait o))
          is_TimeoutExpired
          (fun _ =>
             request "terminate" Terminate (terminate_answer o);;
             try_except
               (process_wait (terminate_wait o))
               is_TimeoutExpired
               (fun _ => request "kill" Kill (kill_answer o))))
       is_Exception
       (fun _ =>
          try_except
            (request "kill" Kill (fallback_kill_answer o))
            is_Exception
            (fun _ => ret tt))).
Proof.
  unfold ordinary_stop. rewrite !andb_true_iff.
  intros [[[[[Hw He] Ht] Htw] Hk] Hf].
  apply try_except_returns.
  - apply safe_bind; [now apply safe_send_command | intros _].
    apply safe_try_except; [now apply safe_process_wait | intros _].
    apply safe_bind; [now apply safe_request | intros _].
    apply safe_try_except; [now apply safe_process_wait | intros _].
    now apply safe_request.
  - intros _. apply try_except_returns; [now apply safe_request|].
    intros _ w. now exists tt, w.
Qed.

(** [stop_gowin] on a running session, with ordinary answers. *)
Lemma stop_gowin_returns (o : stop_oracle) (w : World) :
  is_running w = true ->
  ordinary_stop o = true ->
  fst (stop_gowin o w) = Ret stopped_message.
Proof.
  intros Hrun Hord. unfold stop_gowin, bind at 1, gets. rewrite Hrun. simpl.
  unfold bind at 1. rewrite cleanup_runs.
  destruct (shutdown_returns o Hord w) as (a & w' & ->). reflexivity.
Qed.

(** The final world of [stop_gowin] on a running session. *)
Lemma stop_gowin_world (o : stop_oracle) (w : World) :
  is_running w = true ->
  exists w', snd (stop_gowin o w)
             = set_prompt_ready false (log Clear (set_process None w')).
Proof.
  intros Hrun. unfold stop_gowin, bind at 1, gets. rewrite Hrun. simpl.
  unfold bind at 1. rewrite cleanup_runs.
  match goal with |- context [fst ?x] => destruct (fst x) end;
    eexists; reflexivity.
Qed.

(** [start_gowin] when the spawn raises an [Exception]. *)
Lemma start_gowin_spawn_fails (o : start_oracle) (w : World) (e : exn) :
  is_running w = false ->
  spawn_answer o = Some e ->
  is_Exception e = true ->
  start_gowin o w = (Ret ("Error starting process: " ++ msg e), set_process None w).
Proof.
  intros Hrun Hspawn He. unfold start_gowin, bind at 1, gets.
  rewrite Hrun. simpl. unfold bind at 1, try_except, bind, popen.
  rewrite Hspawn. unfold raise. rewrite He. reflexivity.
Qed.




(** What gets past a handler for [Exception] is not an [Exception]. *)
Lemma try_except_escapes {A} (m : M A) (h : exn -> M A) (w w' : World)
    (e : exn) :
  (forall e0 w0 e1 w1, h e0 w0 = (Raise e1, w1) -> is_Exception e1 = false) ->
  try_except m is_Exception h w = (Raise e, w') ->
  is_Exception e = false.
Proof.
  intros Hh H. unfold try_except in H.
  destruct (m w) as [[a|e1] w1]; [discriminate|].
  destruct (is_Exception e1) eqn:He1.
  - eapply Hh, H.
  - now injection H as <- _.
Qed.

(** [stop_gowin] on a running session returns its message unless an
    exception outside [Exception] passes through. *)
Lemma stop_gowin_result (o : stop_oracle) (w : World) :
  is_running w = true ->
  fst (stop_gowin o w) = Ret stopped_message \/
  exists e, fst (stop_gowin o w) = Raise e /\ is_Exception e = false.
Proof.
  intros Hrun. destruct (stop_gowin o w) as [r w'] eqn:Hs. simpl.
  unfold stop_gowin, bind at 1, gets in Hs. rewrite Hrun in Hs. simpl in Hs.
  unfold bind at 1 in Hs. rewrite cleanup_runs in Hs.
  match type of Hs with context [fst (?m w)] =>
    destruct (m w) as [[a|e] w1] eqn:Hm end; simpl in Hs;
    injection Hs as <- _.
  - now left.
  - right. exists e. split; [reflexivity|].
    eapply try_except_escapes; [|exact Hm].
    intros e0 w0 e1 w2 Hh. eapply try_except_escapes; [|exact Hh].
    intros ? ? ? ? Hret. discriminate.
Qed.

End ControlFacts.

(** ** Runs of the model *)

(** A prompt with no newline before it is flushed and signalled. *)
Example scan_prompt_without_newline :
  output_buffer (run (reads "foo% ") fresh) = ["foo% "] /\
  prompt_ready (run (reads "foo% ") fresh) = true /\
  reader_thread (run (reads "foo% ") fresh) = Scanning "".
Proof. vm_compute. repeat split. Qed.

(** A line with no prompt marker is flushed without a signal. *)
Example scan_line_without_prompt :
  output_buffer (run (reads ("Reading netlist" ++ nl)) fresh)
  = ["Reading netlist" ++ nl] /\
  prompt_ready (run (reads ("Reading netlist" ++ nl)) fresh) = false.
Proof. vm_compute. repeat split. Qed.

(** The child exits while a fragment is pending: the next loop test
    flushes the fragment and the thread returns. *)
Example scan_leftover_on_exit :
  output_buffer (run (reads "bye" ++ [ChildExit 0%Z; LoopTest]) fresh) = ["bye"] /\
  reader_thread (run (reads "bye" ++ [ChildExit 0%Z; LoopTest]) fresh) = Finished.
Proof. vm_compute. repeat split. Qed.

(** A start from the initial session, and a second start right after. *)
Example start_then_start_again :
  fst (start_gowin normal_start init)
  = Ret ("Gowin process started successfully." ++ nl ++ "1" ++ nl ++ "% ") /\
  fst (start_gowin normal_start (snd (start_gowin normal_start init)))
  = Ret "Gowin process is already running." /\
  process (snd (start_gowin normal_start (snd (start_gowin normal_start init))))
  = process (snd (start_gowin normal_start init)).
Proof. vm_compute. repeat split. Qed.

(** A stop in which the child ignores ["exit"] and [terminate()]. *)
Example stop_escalates :
  fst (stop_gowin stubborn live) = Ret stopped_message /\
  trace (snd (stop_gowin stubborn live))
  = [Clear; Drain; Write ("exit" ++ nl); Drain; Terminate; Kill; Clear].
Proof. vm_compute. repeat split. Qed.

(** * The session driver against its specification *)

(** ** Output buffer *)

(** C6.  Whatever the buffer holds, one drain returns the concatenation
    of all its chunks and leaves it empty; a second drain right after
    returns the empty string, and a later drain returns only the chunks
    flushed since, so no chunk is returned twice. *)
Theorem drain_exactly_once (w : World) (evs : list event) :
  fst (get_output w) = Ret (join (output_buffer w)) /\
  output_buffer (snd (get_output w)) = [] /\
  fst (get_output (snd (get_output w))) = Ret "" /\
  fst (get_output (run evs (snd (get_output w))))
  = Ret (join (flushed evs (snd (get_output w)))).
Proof.
  split; [reflexivity|]. split; [reflexivity|]. split; [reflexivity|].
  unfold get_output at 1. simpl. now rewrite flushed_from_empty.
Qed.

(** ** Stream scanner *)

(** C2.  When the character just read makes the fragment contain the
    prompt marker and is not a line terminator, the reader appends as one
    chunk the part of the fragment through the first occurrence of the
    marker, keeps the part after it as the new fragment, and sets the
    prompt flag. *)
Theorem prompt_flush (w : World) (buf : string) (ch : ascii) (a b : string) :
  reader_thread w = Blocked buf ->
  ch <> newline ->
  buf ++ chr ch = a ++ prompt_marker ++ b ->
  exists pre rest,
    buf ++ chr ch = pre ++ prompt_marker ++ rest /\
    (forall a' b', buf ++ chr ch = a' ++ prompt_marker ++ b' ->
                   String.length pre <= String.length a') /\
    output_buffer (loop_body (Got ch) w)
    = (output_buffer w ++ [(pre ++ prompt_marker)%string])%list /\
    reader_thread (loop_body (Got ch) w) = Scanning rest /\
    prompt_ready (loop_body (Got ch) w) = true.
Proof.
  intros Hreader Hch Hocc.
  destruct (find_complete _ _ _ _ Hocc) as [i Hf].
  destruct (find_Some_split _ _ _ Hf) as (pre & rest & Hs & Hl & Hto & Hfrom).
  exists pre, rest. split; [exact Hs|]. split.
  - intros a' b' H'. rewrite Hl. eapply find_least; eassumption.
  - unfold loop_body. rewrite Hreader.
    apply Ascii.eqb_neq in Hch. rewrite Hch. cbv zeta. rewrite Hf.
    change (i + 2) with (i + String.length prompt_marker).
    rewrite Hto, Hfrom. repeat split.
Qed.

Lemma prompt_flush_witness :
  exists pre rest,
    "foo%" ++ chr " " = pre ++ prompt_marker ++ rest /\
    (forall a' b', "foo%" ++ chr " " = a' ++ prompt_marker ++ b' ->
                   String.length pre <= String.length a') /\
    output_buffer (loop_body (Got " ") (set_reader_thread (Blocked "foo%") live))
    = (output_buffer (set_reader_thread (Blocked "foo%") live)
         ++ [(pre ++ prompt_marker)%string])%list /\
    reader_thread (loop_body (Got " ") (set_reader_thread (Blocked "foo%") live))
    = Scanning rest /\
    prompt_ready (loop_body (Got " ") (set_reader_thread (Blocked "foo%") live))
    = true.
Proof.
  apply (prompt_flush (set_reader_thread (Blocked "foo%") live) "foo%" " "
           "foo" "").
  - reflexivity.
  - intros H. vm_compute in H. discriminate H.
  - reflexivity.
Defined.

(** C10.  Every chunk the reader thread appends to the buffer is a
    non-empty string.  Whatever events happen, the buffer afterwards is
    the buffer before followed by the chunks flushed; each of them is a
    line ending in its terminator, a fragment ending in the two-character
    prompt marker, a rest of a fragment that passed the guard [if buf], or
    the report of a read error, and none of them is empty. *)
Theorem chunks_nonempty (evs : list event) (w : World) :
  output_buffer (run evs w) = (output_buffer w ++ flushed evs w)%list /\
  Forall (fun chunk => chunk_shape chunk /\ chunk <> "") (flushed evs w).
Proof.
  split; [apply flushed_spec|].
  eapply Forall_impl; [|apply flushed_shapes].
  intros chunk H. split; [exact H | now apply chunk_shape_nonempty].
Qed.

(** ** [send_command] *)

(** C1, as stated, fails.  The child answers ["50% done\n"] to
    ["run syn"]: the reader flushes ["50% "] and sets the flag, then
    flushes ["done\n"] before the caller drains.  The call returns both
    chunks, while the chunks flushed up to the detection of the prompt
    make only ["50% "]. *)
Lemma send_returns_chunks_after_detection :
  is_running live = true /\
  write_answer progress_line = None /\
  prompt_ready
    (run (before_write progress_line ++ during_wait progress_line)
       (drained_world progress_line live)) = true /\
  fst (send_command progress_line "run syn" true live)
  = Ret ("50% done" ++ nl) /\
  join (flushed
          (up_to_prompt (since_drain progress_line)
             (drained_world progress_line live))
          (drained_world progress_line live)) = "50% " /\
  fst (send_command progress_line "run syn" true live)
  <> Ret (join (flushed
                  (up_to_prompt (since_drain progress_line)
                     (drained_world progress_line live))
                  (drained_world progress_line live))).
Proof.
  repeat (split; [reflexivity|]).
  intros H. vm_compute in H. discriminate H.
Qed.

(** C1, amended.  For a command sent while the session is running, with
    a successful write and a wait that ends with the prompt flag set, the
    string returned is the in-order concatenation of exactly the chunks
    flushed between the drain that precedes the write and the final drain:
    the chunks flushed up to the detection of the prompt, followed by
    those flushed after it and before the final drain.  No chunk buffered
    earlier is included. *)
Theorem send_returns_flushed (s : schedule) (command : string) (w : World) :
  is_running w = true ->
  write_answer s = None ->
  prompt_ready
    (run (before_write s ++ during_wait s) (drained_world s w)) = true ->
  fst (send_command s command true w)
  = Ret (join (flushed (since_drain s) (drained_world s w))) /\
  exists later,
    flushed (since_drain s) (drained_world s w)
    = (flushed (up_to_prompt (since_drain s) (drained_world s w))
         (drained_world s w) ++ later)%list.
Proof.
  intros Hrun Hwrite Hflag. split.
  - rewrite send_command_waits by assumption. simpl.
    now rewrite wait_flag, Hflag, last_drain_buffer.
  - destruct (up_to_prompt_split (since_drain s) (drained_world s w))
      as [later Hl].
    exists (flushed later
              (run (up_to_prompt (since_drain s) (drained_world s w))
                 (drained_world s w))).
    rewrite Hl at 1. apply flushed_app.
Qed.

Lemma send_returns_flushed_witness :
  is_running live = true /\
  write_answer progress_line = None /\
  prompt_ready
    (run (before_write progress_line ++ during_wait progress_line)
       (drained_world progress_line live)) = true /\
  fst (send_command progress_line "run syn" true live)
  = Ret (join (flushed (since_drain progress_line)
                 (drained_world progress_line live))) /\
  exists later,
    flushed (since_drain progress_line) (drained_world progress_line live)
    = (flushed (up_to_prompt (since_drain progress_line)
                  (drained_world progress_line live))
         (drained_world progress_line live) ++ later)%list.
Proof.
  repeat (split; [reflexivity|]).
  apply (send_returns_flushed progress_line "run syn" live); reflexivity.
Defined.

(** C5.  When the session is running, the write succeeds and the wait
    ends with the prompt flag still unset, the call does not raise: it
    drains the buffer and returns the output collected since the drain
    that precedes the write, with the warning appended. *)
Theorem send_timeout_returns_partial (s : schedule) (command : string)
    (w : World) :
  is_running w = true ->
  write_answer s = None ->
  prompt_ready
    (run (before_write s ++ during_wait s) (drained_world s w)) = false ->
  fst (send_command s command true w)
  = Ret (join (flushed (since_drain s) (drained_world s w)) ++ timeout_warning)
  /\ output_buffer (snd (send_command s command true w)) = [].
Proof.
  intros Hrun Hwrite Hflag.
  rewrite send_command_waits by assumption. simpl.
  now rewrite wait_flag, Hflag, last_drain_buffer.
Qed.

Lemma send_timeout_returns_partial_witness :
  is_running live = true /\
  write_answer slow = None /\
  prompt_ready
    (run (before_write slow ++ during_wait slow) (drained_world slow live))
  = false /\
  fst (send_command slow "run pnr" true live)
  = Ret (join (flushed (since_drain slow) (drained_world slow live))
         ++ timeout_warning) /\
  output_buffer (snd (send_command slow "run pnr" true live)) = [].
Proof.
  repeat (split; [reflexivity|]).
  apply (send_timeout_returns_partial slow "run pnr" live); reflexivity.
Defined.

(** C7.  A call made while the session is not running raises the
    not-running error and leaves the session as it was: nothing is
    written to the child, and neither a drain nor a change of the prompt
    flag precedes the check. *)
Theorem send_before_start (s : schedule) (command : string)
    (wait_for_prompt : bool) (w : World) :
  is_running w = false ->
  send_command s command wait_for_prompt w
  = (Raise (mk_exn RuntimeError not_running_message), w) /\
  trace (snd (send_command s command wait_for_prompt w)) = trace w.
Proof.
  intros Hrun. rewrite send_command_not_running by assumption. now split.
Qed.

Lemma send_before_start_witness :
  is_running init = false /\
  send_command progress_line "run syn" true init
  = (Raise (mk_exn RuntimeError not_running_message), init) /\
  trace (snd (send_command progress_line "run syn" true init)) = trace init.
Proof.
  split; [reflexivity|].
  apply (send_before_start progress_line "run syn" true init). reflexivity.
Defined.

(** C3, as stated, fails.  Both failures end in a raised [RuntimeError],
    not in a returned status, and a tool such as [run_synthesis] passes
    the exception on to its caller. *)
Lemma send_failures_are_raised :
  fst (send_command quiet "run syn" true init)
  = Raise (mk_exn RuntimeError "Gowin process is not running. Start it first.")
  /\ fst (send_command broken_pipe "run syn" true live)
     = Raise (mk_exn RuntimeError
                "Error sending command: [Errno 32] Broken pipe")
  /\ fst (run_synthesis quiet init)
     = Raise (mk_exn RuntimeError
                "Gowin process is not running. Start it first.").
Proof. repeat split. Qed.

(** C3, amended.  For every call of [send_command], the failure
    not-running and the failure of the write (with an exception of class
    [Exception]) are raised to the immediate caller as a [RuntimeError]
    whose message names the failure; the command tools do not catch it,
    so their callers receive the same exception. *)
Theorem send_failures_raise (s : schedule) (command : string)
    (wait_for_prompt : bool) (w : World) (e : exn) :
  send_fails s w e ->
  fst (send_command s command wait_for_prompt w) = Raise e /\
  fst (send_tcl_command s command w) = Raise e /\
  cls e = RuntimeError.
Proof.
  intros [Hrun | cause Hrun Hwrite Hexc];
    change (send_tcl_command s command w) with (send_command s command true w).
  - rewrite !send_command_not_running by assumption. now repeat split.
  - rewrite !(send_command_write_fails s command _ w cause) by assumption.
    now repeat split.
Qed.

Lemma send_failures_raise_witness :
  send_fails broken_pipe live
    (mk_exn RuntimeError ("Error sending command: " ++ "[Errno 32] Broken pipe"))
  /\ fst (send_command broken_pipe "run syn" true live)
     = Raise (mk_exn RuntimeError
                ("Error sending command: " ++ "[Errno 32] Broken pipe"))
  /\ fst (send_tcl_command broken_pipe "run syn" live)
     = Raise (mk_exn RuntimeError
                ("Error sending command: " ++ "[Errno 32] Broken pipe"))
  /\ cls (mk_exn RuntimeError
            ("Error sending command: " ++ "[Errno 32] Broken pipe"))
     = RuntimeError.
Proof.
  assert (send_fails broken_pipe live
            (mk_exn RuntimeError
               ("Error sending command: " ++ "[Errno 32] Broken pipe"))) as H
    by (apply (fails_write broken_pipe live
                 (mk_exn OSError "[Errno 32] Broken pipe")); reflexivity).
  split; [exact H|].
  apply (send_failures_raise broken_pipe "run syn" true live _ H).
Defined.

(** ** [stop_gowin] and [start_gowin] *)

(** C4.  For every call of [stop_gowin] on a running session, whatever
    each stage of the shutdown answers, the handle is cleared, the prompt
    flag is reset and [is_running] is false afterwards, and the handle
    stays cleared whatever the reader thread still does.  The call
    returns its message unless an exception outside the class
    [Exception], which no handler of the function catches, passes through
    it, and that needs an answer that is not ordinary. *)
Theorem stop_cleans_up (o : stop_oracle) (w : World) (later : list event) :
  is_running w = true ->
  process (snd (stop_gowin o w)) = None /\
  prompt_ready (snd (stop_gowin o w)) = false /\
  is_running (snd (stop_gowin o w)) = false /\
  is_running (run later (snd (stop_gowin o w))) = false /\
  (fst (stop_gowin o w) = Ret stopped_message \/
   ordinary_stop o = false /\
   exists e, fst (stop_gowin o w) = Raise e /\ is_Exception e = false).
Proof.
  intros Hrun. split; [|split; [|split; [|split]]].
  - destruct (stop_gowin_world o w Hrun) as [w' ->]. reflexivity.
  - destruct (stop_gowin_world o w Hrun) as [w' ->]. reflexivity.
  - destruct (stop_gowin_world o w Hrun) as [w' ->]. reflexivity.
  - destruct (stop_gowin_world o w Hrun) as [w' ->].
    unfold is_running. now rewrite run_no_process.
  - destruct (ordinary_stop o) eqn:Hord.
    + left. now apply stop_gowin_returns.
    + destruct (stop_gowin_result o w Hrun) as [H|H]; [now left | now right].
Qed.

Lemma stop_cleans_up_witness :
  is_running live = true /\
  process (snd (stop_gowin failing_stop live)) = None /\
  prompt_ready (snd (stop_gowin failing_stop live)) = false /\
  is_running (snd (stop_gowin failing_stop live)) = false /\
  is_running (run (reads "% ") (snd (stop_gowin failing_stop live))) = false /\
  (fst (stop_gowin failing_stop live) = Ret stopped_message \/
   ordinary_stop failing_stop = false /\
   exists e, fst (stop_gowin failing_stop live) = Raise e /\
             is_Exception e = false).
Proof.
  split; [reflexivity|].
  apply (stop_cleans_up failing_stop live (reads "% ")). reflexivity.
Defined.




(** C9, as stated, fails.  When the child of an earlier start has exited
    on its own, the session still holds its handle; a start whose spawn
    raises replaces that handle by [None], so the session is not as it
    was before the call. *)
Lemma failed_start_drops_stale_handle :
  is_running exited = false /\
  process exited = Some (mk_Popen (Some 0%Z)) /\
  fst (start_gowin missing_executable exited)
  = Ret "Error starting process: [Errno 2] No such file or directory" /\
  process (snd (start_gowin missing_executable exited)) = None /\
  snd (start_gowin missing_executable exited) <> exited.
Proof.
  repeat (split; [reflexivity|]).
  intros H. vm_compute in H. discriminate H.
Qed.

(** C9, amended.  If the spawn in [start_gowin] raises an exception of
    class [Exception], the call sets the handle to [None], returns an
    error message that names the failure and leaves [is_running] false;
    the buffer, the prompt flag and the reader are as before the call,
    and so is the handle unless it was the stale handle of an exited
    child. *)
Theorem start_spawn_failure (o : start_oracle) (w : World) (e : exn) :
  is_running w = false ->
  spawn_answer o = Some e ->
  is_Exception e = true ->
  start_gowin o w
  = (Ret ("Error starting process: " ++ msg e), set_process None w) /\
  is_running (set_process None w) = false /\
  (set_process None w = w \/
   exists p rc, process w = Some p /\ poll p = Some rc).
Proof.
  intros Hrun Hspawn He.
  split; [now apply start_gowin_spawn_fails|]. split; [reflexivity|].
  unfold is_running in Hrun. destruct w as [[p|] b f r t]; simpl in *.
  - right. destruct (poll p) as [rc|] eqn:Hp; [eauto | discriminate].
  - now left.
Qed.

Lemma start_spawn_failure_witness :
  is_running init = false /\
  spawn_answer missing_executable
  = Some (mk_exn OSError "[Errno 2] No such file or directory") /\
  start_gowin missing_executable init
  = (Ret ("Error starting process: "
          ++ msg (mk_exn OSError "[Errno 2] No such file or directory")),
     set_process None init) /\
  is_running (set_process None init) = false /\
  (set_process None init = init \/
   exists p rc, process init = Some p /\ poll p = Some rc).
Proof.
  repeat (split; [reflexivity|]).
  apply (start_spawn_failure missing_executable init
           (mk_exn OSError "[Errno 2] No such file or directory"));
    reflexivity.
Defined.

(** * Further properties of the driver *)

(** ** The fragment of the reader thread *)

Section FragmentFacts.

Lemma append_chr_inj (a b : string) (c d : ascii) :
  a ++ chr c = b ++ chr d -> a = b /\ c = d.
Proof.
  revert b; induction a as [|x a IH]; intros [|y b] H; simpl in H.
  - now injection H as ->.
  - injection H as _ H. destruct b; discriminate.
  - injection H as _ H. destruct a; discriminate.
  - injection H as -> H. destruct (IH b H) as [-> ->]. now split.
Qed.

(** A string that ends in [c], cut before a non-empty tail: the tail ends
    in [c] too. *)
Lemma tail_ends (a b r : string) (c : ascii) :
  a ++ chr c = b ++ r -> r <> "" ->
  exists r', r = r' ++ chr c /\ a = b ++ r'.
Proof.
  revert a; induction b as [|y b IH]; intros a H Hr; simpl in H.
  - exists a. now split.
  - destruct a as [|x a]; simpl in H.
    + injection H as _ H. destruct b; [simpl in H; congruence | discriminate].
    + injection H as -> H. destruct (IH a H Hr) as (r' & -> & ->).
      now exists r'.
Qed.

(** An occurrence that appears with the last character ends the
    string. *)
Lemma find_new_at_end (sub buf : string) (ch : ascii) (i : nat) :
  find sub buf = None ->
  find sub (buf ++ chr ch) = Some i ->
  exists pre, buf ++ chr ch = pre ++ sub /\
              slice_to (i + String.length sub) (buf ++ chr ch) = pre ++ sub /\
              slice_from (i + String.length sub) (buf ++ chr ch) = "".
Proof.
  intros Hnone Hsome.
  destruct (find_Some_split _ _ _ Hsome) as (pre & rest & Hs & _ & Hto & Hfrom).
  destruct rest as [|x rest].
  - exists pre. rewrite Hfrom. now rewrite append_empty_r in Hs.
  - rewrite <- append_assoc in Hs.
    destruct (tail_ends buf (pre ++ sub) (String x rest) ch Hs) as (r' & _ & Hb);
      [discriminate|].
    rewrite append_assoc in Hb.
    destruct (find_complete sub buf pre r' Hb) as [j Hj]. congruence.
Qed.

Lemma clean_empty : clean "".
Proof. split; reflexivity. Qed.

(** A clean fragment stays clean with one more character, unless that
    character completes the marker or is the line terminator. *)
Lemma clean_extend (buf : string) (ch : ascii) :
  clean buf ->
  Ascii.eqb ch newline = false ->
  find prompt_marker (buf ++ chr ch) = None ->
  clean (buf ++ chr ch).
Proof.
  intros [_ Hnl] Hch Hm. split; [exact Hm|].
  destruct (find nl (buf ++ chr ch)) as [i|] eqn:Hf; [|reflexivity].
  destruct (find_new_at_end nl buf ch i Hnl Hf) as (pre & Hs & _).
  apply append_chr_inj in Hs as [_ ->].
  now rewrite Ascii.eqb_refl in Hch.
Qed.

Lemma step_clean (e : event) (w : World) :
  clean (pending w) -> clean (pending (step e w)).
Proof.
  intros Hc. destruct e as [rc| |r]; simpl.
  - unfold child_exit, pending in *.
    destruct (process w) as [p|]; [destruct (poll p)|]; exact Hc.
  - unfold loop_test, leftover, pending in *.
    destruct (reader_thread w) as [|buf|buf|] eqn:Hr; simpl;
      rewrite ?Hr; try exact Hc.
    destruct (is_running w); simpl; [exact Hc|].
    destruct (truthy buf); apply clean_empty.
  - unfold loop_body, leftover, pending in *.
    destruct (reader_thread w) as [|buf|buf|] eqn:Hr; simpl;
      rewrite ?Hr; try exact Hc.
    destruct r as [ch| |ex].
    + destruct (Ascii.eqb ch newline) eqn:Hnl; simpl; [apply clean_empty|].
      destruct (find prompt_marker (buf ++ chr ch)) as [i|] eqn:Hf; simpl.
      * destruct (find_new_at_end prompt_marker buf ch i (proj1 Hc) Hf)
          as (pre & _ & _ & Hrest).
        change (i + 2) with (i + String.length prompt_marker).
        rewrite Hrest. apply clean_empty.
      * now apply clean_extend.
    + destruct (truthy buf); apply clean_empty.
    + destruct (is_Exception ex); apply clean_empty.
Qed.

End FragmentFacts.

(** X1.  The fragment of the reader thread never holds a complete prompt
    marker or a line terminator: if it is clean before some events, it
    is clean after them. *)
Theorem fragment_stays_clean (evs : list event) (w : World) :
  clean (pending w) -> clean (pending (run evs w)).
Proof.
  revert w; induction evs as [|e evs IH]; intros w Hc; [exact Hc|].
  rewrite run_cons. now apply IH, step_clean.
Qed.

Lemma fragment_stays_clean_witness :
  clean (pending fresh) /\
  clean (pending (run (reads ("ok" ++ nl ++ "100% do")) fresh)).
Proof.
  split; [apply clean_empty|].
  apply (fragment_stays_clean (reads ("ok" ++ nl ++ "100% do")) fresh).
  apply clean_empty.
Defined.

(** X2.  When a character completes the prompt marker in a clean
    fragment, the chunk flushed is the whole fragment and nothing is kept
    back: the marker ends the chunk and the new fragment is empty. *)
Theorem prompt_flush_keeps_nothing (w : World) (buf : string) (ch : ascii)
    (i : nat) :
  reader_thread w = Blocked buf ->
  clean buf ->
  ch <> newline ->
  find prompt_marker (buf ++ chr ch) = Some i ->
  output_buffer (loop_body (Got ch) w)
  = (output_buffer w ++ [(buf ++ chr ch)%string])%list /\
  reader_thread (loop_body (Got ch) w) = Scanning "" /\
  prompt_ready (loop_body (Got ch) w) = true /\
  exists pre, buf ++ chr ch = pre ++ prompt_marker.
Proof.
  intros Hreader [Hm _] Hch Hf.
  destruct (find_new_at_end prompt_marker buf ch i Hm Hf)
    as (pre & Hs & Hto & Hrest).
  unfold loop_body. rewrite Hreader.
  apply Ascii.eqb_neq in Hch. rewrite Hch. cbv zeta. rewrite Hf.
  change (i + 2) with (i + String.length prompt_marker).
  rewrite Hto, Hrest, <- Hs. simpl. repeat split. now exists pre.
Qed.

Lemma prompt_flush_keeps_nothing_witness :
  output_buffer
    (loop_body (Got " ") (set_reader_thread (Blocked "foo%") fresh))
  = (output_buffer (set_reader_thread (Blocked "foo%") fresh)
       ++ [("foo%" ++ chr " ")%string])%list /\
  reader_thread
    (loop_body (Got " ") (set_reader_thread (Blocked "foo%") fresh))
  = Scanning "" /\
  prompt_ready
    (loop_body (Got " ") (set_reader_thread (Blocked "foo%") fresh)) = true /\
  exists pre, "foo%" ++ chr " " = pre ++ prompt_marker.
Proof.
  apply (prompt_flush_keeps_nothing
           (set_reader_thread (Blocked "foo%") fresh) "foo%" " " 3).
  - reflexivity.
  - split; reflexivity.
  - intros H. vm_compute in H. discriminate H.
  - reflexivity.
Defined.

(** ** The reader thread over whole runs *)

Section ReaderFacts.

Lemma join_cons (x : string) (l : list string) : join (x :: l) = x ++ join l.
Proof. apply (join_app [x] l). Qed.

Lemma flushed_nil (w : World) : flushed [] w = [].
Proof. unfold flushed. simpl. apply skipn_all. Qed.

Lemma flushed_cons (e : event) (evs : list event) (w : World) :
  flushed (e :: evs) w = (flushed [e] w ++ flushed evs (step e w))%list.
Proof. apply (flushed_app [e] evs w). Qed.

(** The reader thread does not touch the handle. *)
Lemma loop_test_process (w : World) : process (loop_test w) = process w.
Proof.
  unfold loop_test, leftover, emit.
  destruct (reader_thread w); try reflexivity.
  destruct (is_running w); [reflexivity|].
  destruct (truthy buf); reflexivity.
Qed.

Lemma loop_body_process (r : read_result) (w : World) :
  process (loop_body r w) = process w.
Proof.
  unfold loop_body, leftover, emit.
  destruct (reader_thread w); try reflexivity.
  destruct r as [ch| |ex].
  - destruct (Ascii.eqb ch newline); [reflexivity|].
    destruct (find prompt_marker (buf ++ chr ch)); reflexivity.
  - destruct (truthy buf); reflexivity.
  - destruct (is_Exception ex); reflexivity.
Qed.

Lemma run_stays_running (evs : list event) (w : World) :
  child_stays evs = true -> is_running (run evs w) = is_running w.
Proof.
  revert w; induction evs as [|e evs IH]; intros w H; [reflexivity|].
  rewrite run_cons. destruct e as [rc| |r]; simpl in H; [discriminate| |];
    rewrite (IH _ H); unfold is_running; simpl.
  - now rewrite loop_test_process.
  - now rewrite loop_body_process.
Qed.

(** What one event adds to the buffer, when it adds one chunk. *)
Lemma flushed_one (e : event) (w : World) (chunk : string) :
  output_buffer (step e w) = (output_buffer w ++ [chunk])%list ->
  flushed [e] w = [chunk].
Proof.
  intros H. apply (app_inv_head (output_buffer w)).
  now rewrite <- flushed_spec.
Qed.

Lemma flushed_none (e : event) (w : World) :
  output_buffer (step e w) = output_buffer w -> flushed [e] w = [].
Proof.
  intros H. apply (app_inv_head (output_buffer w)).
  now rewrite <- flushed_spec, app_nil_r.
Qed.

(** A reader that is not in its loop does nothing. *)
Lemma step_idle (e : event) (w : World) :
  reader_thread w = Finished \/ reader_thread w = NotStarted ->
  output_buffer (step e w) = output_buffer w /\
  prompt_ready (step e w) = prompt_ready w /\
  reader_thread (step e w) = reader_thread w.
Proof.
  intros H. destruct e as [rc| |r]; simpl.
  - unfold child_exit.
    destruct (process w) as [p|]; [destruct (poll p)|]; now repeat split.
  - unfold loop_test. destruct H as [H | H]; rewrite H; now repeat split.
  - unfold loop_body. destruct H as [H | H]; rewrite H; now repeat split.
Qed.

Lemma run_idle (evs : list event) (w : World) :
  reader_thread w = Finished \/ reader_thread w = NotStarted ->
  output_buffer (run evs w) = output_buffer w /\
  prompt_ready (run evs w) = prompt_ready w /\
  reader_thread (run evs w) = reader_thread w.
Proof.
  revert w; induction evs as [|e evs IH]; intros w H; [now repeat split|].
  rewrite run_cons.
  destruct (step_idle e w H) as (Hb & Hf & Hr).
  rewrite <- Hr in H. destruct (IH _ H) as (Hb' & Hf' & Hr').
  rewrite Hb', Hf', Hr', Hb, Hf, Hr. now repeat split.
Qed.

Lemma step_flag (e : event) (w : World) :
  prompt_ready w = true -> prompt_ready (step e w) = true.
Proof.
  intros H. destruct e as [rc| |r]; simpl.
  - unfold child_exit.
    destruct (process w) as [p|]; [destruct (poll p)|]; exact H.
  - unfold loop_test, leftover, emit.
    destruct (reader_thread w); try exact H.
    destruct (is_running w); [exact H|].
    destruct (truthy buf); exact H.
  - unfold loop_body, leftover, emit.
    destruct (reader_thread w); try exact H.
    destruct r as [ch| |ex].
    + destruct (Ascii.eqb ch newline); [exact H|].
      destruct (find prompt_marker (buf ++ chr ch)); [reflexivity | exact H].
    + destruct (truthy buf); exact H.
    + destruct (is_Exception ex); exact H.
Qed.

End ReaderFacts.

(** X3.  While the child is alive, the reader thread loses and repeats
    no character: after it has read the characters of [s], the chunks it
    flushed, followed by the fragment it holds, spell the fragment it
    held before followed by [s]. *)
Theorem reader_keeps_every_character (s : string) (w : World) (buf : string) :
  is_running w = true ->
  reader_thread w = Scanning buf ->
  join (flushed (reads s) w) ++ pending (run (reads s) w) = buf ++ s.
Proof.
  revert w buf; induction s as [|c s IH]; intros w buf Hrun Hreader.
  - simpl reads. rewrite flushed_nil. unfold pending. simpl.
    rewrite Hreader. now rewrite append_empty_r.
  - simpl reads.
    assert (step LoopTest w = set_reader_thread (Blocked buf) w) as Htest
      by (simpl; unfold loop_test; now rewrite Hreader, Hrun).
    rewrite flushed_cons, !run_cons, Htest.
    rewrite (flushed_none LoopTest w) by now rewrite Htest.
    rewrite flushed_cons. simpl app.
    set (w1 := set_reader_thread (Blocked buf) w).
    change (step (ReadReturns (Got c)) w1) with (loop_body (Got c) w1).
    destruct (Ascii.eqb c newline) eqn:Hnl.
    + assert (loop_body (Got c) w1
              = set_reader_thread (Scanning "") (emit (buf ++ chr c) w1)) as Hb
        by (unfold loop_body; simpl; now rewrite Hnl).
      rewrite (flushed_one (ReadReturns (Got c)) w1 (buf ++ chr c))
        by (simpl step; now rewrite Hb).
      rewrite Hb, join_app, append_assoc.
      rewrite (IH (set_reader_thread (Scanning "") (emit (buf ++ chr c) w1))
                 "" Hrun eq_refl).
      change (join [buf ++ chr c]) with (buf ++ chr c).
      change ("" ++ s) with s. change (String c s) with (chr c ++ s).
      now rewrite <- append_assoc.
    + destruct (find prompt_marker (buf ++ chr c)) as [i|] eqn:Hf.
      * assert (loop_body (Got c) w1
                = set_prompt_ready true
                    (set_reader_thread
                       (Scanning (slice_from (i + 2) (buf ++ chr c)))
                       (emit (slice_to (i + 2) (buf ++ chr c)) w1))) as Hb
          by (unfold loop_body; simpl; now rewrite Hnl, Hf).
        destruct (find_Some_split _ _ _ Hf) as (pre & rest & Hs & _ & Hto & Hfrom).
        change (i + 2) with (i + String.length prompt_marker) in Hb.
        rewrite Hto, Hfrom in Hb.
        rewrite (flushed_one (ReadReturns (Got c)) w1 (pre ++ prompt_marker))
          by (simpl step; now rewrite Hb).
        rewrite Hb, join_app, append_assoc.
        rewrite (IH (set_prompt_ready true
                       (set_reader_thread (Scanning rest)
                          (emit (pre ++ prompt_marker) w1)))
                   rest Hrun eq_refl).
        change (join [pre ++ prompt_marker]) with (pre ++ prompt_marker).
        change (String c s) with (chr c ++ s).
        now rewrite <- (append_assoc buf), Hs, !append_assoc.
      * assert (loop_body (Got c) w1
                = set_reader_thread (Scanning (buf ++ chr c)) w1) as Hb
          by (unfold loop_body; simpl; now rewrite Hnl, Hf).
        rewrite (flushed_none (ReadReturns (Got c)) w1)
          by (simpl step; now rewrite Hb).
        rewrite Hb. simpl app.
        rewrite (IH (set_reader_thread (Scanning (buf ++ chr c)) w1)
                   (buf ++ chr c) Hrun eq_refl).
        change (String c s) with (chr c ++ s).
        now rewrite <- append_assoc.
Qed.

Lemma reader_keeps_every_character_witness :
  is_running live = true /\
  reader_thread live = Scanning "" /\
  join (flushed (reads ("Reading" ++ nl ++ "50% done")) live)
  ++ pending (run (reads ("Reading" ++ nl ++ "50% done")) live)
  = "" ++ ("Reading" ++ nl ++ "50% done").
Proof.
  repeat (split; [reflexivity|]).
  apply (reader_keeps_every_character ("Reading" ++ nl ++ "50% done") live "");
    reflexivity.
Defined.



(** X5.  A read error ends the reading for good while the session keeps
    counting as running: the only chunk ever added afterwards is the
    error report, the fragment held at the time is dropped, and as long
    as the child does not exit [is_running] is as before. *)
Theorem read_error_ends_reading (w : World) (buf : string) (e : exn)
    (later : list event) :
  reader_thread w = Blocked buf ->
  is_Exception e = true ->
  child_stays later = true ->
  output_buffer (run (ReadReturns (ReadRaises e) :: later) w)
  = (output_buffer w
       ++ [(nl ++ "[Reader error: " ++ msg e ++ "]" ++ nl)%string])%list /\
  prompt_ready (run (ReadReturns (ReadRaises e) :: later) w) = prompt_ready w /\
  reader_thread (run (ReadReturns (ReadRaises e) :: later) w) = Finished /\
  is_running (run (ReadReturns (ReadRaises e) :: later) w) = is_running w.
Proof.
  intros Hreader He Hstay. rewrite run_cons.
  assert (step (ReadReturns (ReadRaises e)) w
          = set_reader_thread Finished
              (emit (nl ++ "[Reader error: " ++ msg e ++ "]" ++ nl) w)) as Hs
    by (simpl; unfold loop_body; now rewrite Hreader, He).
  rewrite Hs.
  destruct (run_idle later
              (set_reader_thread Finished
                 (emit (nl ++ "[Reader error: " ++ msg e ++ "]" ++ nl) w))
              (or_introl eq_refl)) as (Hb & Hf & Hr).
  rewrite Hb, Hf, Hr, run_stays_running by exact Hstay. now repeat split.
Qed.

Lemma read_error_ends_reading_witness :
  reader_thread (set_reader_thread (Blocked "50") live) = Blocked "50" /\
  is_Exception (mk_exn OSError "[Errno 5] Input/output error") = true /\
  child_stays (reads "% ") = true /\
  output_buffer
    (run (ReadReturns (ReadRaises (mk_exn OSError "[Errno 5] Input/output error"))
            :: reads "% ")
       (set_reader_thread (Blocked "50") live))
  = (output_buffer (set_reader_thread (Blocked "50") live)
       ++ [(nl ++ "[Reader error: "
               ++ msg (mk_exn OSError "[Errno 5] Input/output error")
               ++ "]" ++ nl)%string])%list /\
  prompt_ready
    (run (ReadReturns (ReadRaises (mk_exn OSError "[Errno 5] Input/output error"))
            :: reads "% ")
       (set_reader_thread (Blocked "50") live))
  = prompt_ready (set_reader_thread (Blocked "50") live) /\
  reader_thread
    (run (ReadReturns (ReadRaises (mk_exn OSError "[Errno 5] Input/output error"))
            :: reads "% ")
       (set_reader_thread (Blocked "50") live))
  = Finished /\
  is_running
    (run (ReadReturns (ReadRaises (mk_exn OSError "[Errno 5] Input/output error"))
            :: reads "% ")
       (set_reader_thread (Blocked "50") live))
  = is_running (set_reader_thread (Blocked "50") live).
Proof.
  repeat (split; [reflexivity|]).
  apply (read_error_ends_reading (set_reader_thread (Blocked "50") live) "50"
           (mk_exn OSError "[Errno 5] Input/output error") (reads "% "));
    reflexivity.
Defined.

(** X6.  Neither the reader thread nor the child ever clears the prompt
    flag: once set it stays set until the caller clears it. *)
Theorem flag_never_cleared (evs : list event) (w : World) :
  prompt_ready w = true -> prompt_ready (run evs w) = true.
Proof.
  revert w; induction evs as [|e evs IH]; intros w H; [exact H|].
  rewrite run_cons. now apply IH, step_flag.
Qed.

Lemma flag_never_cleared_witness :
  prompt_ready live = true /\
  prompt_ready (run (reads ("done" ++ nl) ++ [ChildExit 1%Z; LoopTest]) live)
  = true.
Proof.
  split; [reflexivity|].
  apply (flag_never_cleared (reads ("done" ++ nl) ++ [ChildExit 1%Z; LoopTest])
           live).
  reflexivity.
Defined.

Section LineFacts.

Lemma reads_app (a b : string) : reads (a ++ b) = (reads a ++ reads b)%list.
Proof. induction a as [|c a IH]; simpl; [reflexivity | now rewrite IH]. Qed.

Lemma find_nl_cons (c : ascii) (s : string) :
  find nl (String c s) = None ->
  Ascii.eqb c newline = false /\ find nl s = None.
Proof.
  rewrite find_cons. destruct (prefix nl (String c s)) eqn:Hp; [discriminate|].
  intros H. split.
  - apply Ascii.eqb_neq. intros ->.
    assert (prefix nl (String newline s) = true) as Hp'
      by (apply prefix_split; now exists s).
    congruence.
  - destruct (find nl s); [discriminate | reflexivity].
Qed.

(** A string without an occurrence has none in its prefixes. *)
Lemma find_none_prefix (sub a b : string) :
  find sub (a ++ b) = None -> find sub a = None.
Proof.
  intros H. destruct (find sub a) as [i|] eqn:Hf; [|reflexivity].
  destruct (find_Some_split _ _ _ Hf) as (pre & rest & Hs & _).
  destruct (find_complete sub (a ++ b) pre (rest ++ b)) as [j Hj].
  - now rewrite Hs, !append_assoc.
  - congruence.
Qed.

(** Characters that bring neither a marker nor a terminator only grow
    the fragment. *)
Lemma reads_grow_fragment (s buf : string) (w : World) :
  is_running w = true ->
  reader_thread w = Scanning buf ->
  find prompt_marker (buf ++ s) = None ->
  find nl s = None ->
  run (reads s) w = set_reader_thread (Scanning (buf ++ s)) w.
Proof.
  revert buf w; induction s as [|c s IH]; intros buf w Hrun Hreader Hm Hn.
  - simpl. rewrite append_empty_r, <- Hreader. now destruct w.
  - apply find_nl_cons in Hn as [Hc Hn].
    change (String c s) with (chr c ++ s) in Hm.
    rewrite <- append_assoc in Hm.
    pose proof (find_none_prefix _ _ _ Hm) as Hm1.
    simpl reads. rewrite !run_cons.
    assert (step (ReadReturns (Got c)) (step LoopTest w)
            = set_reader_thread (Scanning (buf ++ chr c)) w) as Hs.
    { simpl. unfold loop_test. rewrite Hreader, Hrun.
      unfold loop_body. simpl. now rewrite Hc, Hm1. }
    rewrite Hs, (IH (buf ++ chr c)); try assumption; try reflexivity.
    now rewrite append_assoc.
Qed.

End LineFacts.

(** X7.  A line that brings no prompt marker is flushed as one chunk,
    the fragment held before with the line and its terminator, and the
    prompt flag is left as it was. *)
Theorem line_without_prompt (s buf : string) (w : World) :
  is_running w = true ->
  reader_thread w = Scanning buf ->
  find prompt_marker (buf ++ s) = None ->
  find nl s = None ->
  output_buffer (run (reads (s ++ nl)) w)
  = (output_buffer w ++ [(buf ++ s ++ nl)%string])%list /\
  prompt_ready (run (reads (s ++ nl)) w) = prompt_ready w /\
  reader_thread (run (reads (s ++ nl)) w) = Scanning "".
Proof.
  intros Hrun Hreader Hm Hn.
  rewrite reads_app, run_app, (reads_grow_fragment s buf w) by assumption.
  simpl. unfold loop_test. simpl. unfold is_running in *. simpl.
  destruct (process w) as [p|]; [|discriminate].
  destruct (poll p); [discriminate|].
  unfold loop_body. simpl. rewrite append_assoc. now repeat split.
Qed.

Lemma line_without_prompt_witness :
  is_running live = true /\
  reader_thread live = Scanning "" /\
  find prompt_marker ("" ++ "Reading netlist") = None /\
  find nl "Reading netlist" = None /\
  output_buffer (run (reads ("Reading netlist" ++ nl)) live)
  = (output_buffer live ++ [("" ++ "Reading netlist" ++ nl)%string])%list /\
  prompt_ready (run (reads ("Reading netlist" ++ nl)) live) = prompt_ready live /\
  reader_thread (run (reads ("Reading netlist" ++ nl)) live) = Scanning "".
Proof.
  repeat (split; [reflexivity|]).
  apply (line_without_prompt "Reading netlist" "" live); reflexivity.
Defined.

(** ** [send_command] with its timeout *)

Section TimeoutFacts.

Lemma run_trace (evs : list event) (w : World) : trace (run evs w) = trace w.
Proof.
  revert w; induction evs as [|e evs IH]; intros w; [reflexivity|].
  now rewrite run_cons, IH, step_trace.
Qed.

Lemma drained_trace (s : schedule) (w : World) :
  trace (drained_world s w) = (trace w ++ [Clear; Drain])%list.
Proof.
  unfold drained_world, get_output, prompt_clear, modify. simpl.
  rewrite run_trace. simpl. now rewrite run_trace, <- app_assoc.
Qed.


End TimeoutFacts.

(** X8.  A command sent without waiting for the prompt, to a running
    session and with a successful write, returns the chunks flushed
    between the drain that precedes the write and the end of the grace
    period, whatever the timeout and the prompt flag; it never appends
    the warning, and it leaves the buffer empty. *)
Theorem send_without_waiting (s : schedule) (command : string)
    (timeout : float) (w : World) :
  is_running w = true ->
  write_answer s = None ->
  fst (send_command_timeout s command false timeout w)
  = Ret (join (flushed (before_write s ++ during_wait s) (drained_world s w)))
  /\ output_buffer (snd (send_command_timeout s command false timeout w)) = [].
Proof.
  intros Hrun Hwrite. rewrite send_timeout_sleeps by assumption. simpl.
  rewrite !run_log. change (output_buffer (log ?a ?x)) with (output_buffer x).
  rewrite <- run_app, flushed_from_empty by apply drained_empty.
  now split.
Qed.

Lemma send_without_waiting_witness :
  is_running live = true /\
  write_answer progress_line = None /\
  fst (send_command_timeout progress_line "exit" false (of_int 5000000) live)
  = Ret (join (flushed (before_write progress_line ++ during_wait progress_line)
                 (drained_world progress_line live)))
  /\ output_buffer
       (snd (send_command_timeout progress_line "exit" false (of_int 5000000)
               live)) = [].
Proof.
  repeat (split; [reflexivity|]).
  apply (send_without_waiting progress_line "exit" (of_int 5000000) live);
    reflexivity.
Defined.

(** X9.  A call that finds the session running, whose write succeeds and
    whose timeout is accepted, acts on the session in a fixed order: it
    clears the prompt flag, drains the buffer, writes the command with a
    line terminator once, and drains once more. *)
Theorem send_acts_in_order (s : schedule) (command : string)
    (wait_for_prompt : bool) (timeout : float) (w : World) :
  is_running w = true ->
  write_answer s = None ->
  timeout_accepted timeout = true ->
  trace (snd (send_command_timeout s command wait_for_prompt timeout w))
  = (trace w ++ [Clear; Drain; Write (command ++ nl); Drain])%list.
Proof.
  intros Hrun Hwrite Ht. destruct wait_for_prompt.
  - rewrite send_timeout_waits by auto. simpl.
    rewrite !run_trace. simpl. rewrite run_trace, drained_trace.
    now rewrite <- !app_assoc.
  - rewrite send_timeout_sleeps by assumption. simpl.
    rewrite !run_trace. simpl. rewrite run_trace, drained_trace.
    now rewrite <- !app_assoc.
Qed.

Lemma send_acts_in_order_witness :
  is_running live = true /\
  write_answer slow = None /\
  timeout_accepted (of_int 300) = true /\
  trace (snd (send_command_timeout slow "run pnr" true (of_int 300) live))
  = (trace live ++ [Clear; Drain; Write ("run pnr" ++ nl); Drain])%list.
Proof.
  repeat (split; [reflexivity|]).
  apply (send_acts_in_order slow "run pnr" true (of_int 300) live);
    reflexivity.
Defined.





(** ** The stages of [stop_gowin] *)

Section StopFacts.

Lemma request_granted (name : string) (a : action) (w : World) (p : Popen) :
  process w = Some p -> request name a None w = (Ret tt, log a w).
Proof. intros H. unfold request, bind, attr, modify. now rewrite H. Qed.

Lemma process_wait_returns (o : wait_oracle) (w : World) (p : Popen) :
  process w = Some p ->
  interrupt o = None ->
  is_running (run (during o) w) = false ->
  process_wait o w = (Ret tt, run (during o) w).
Proof.
  intros Hp Hi Hrun. unfold process_wait, bind, attr, env, modify, gets.
  now rewrite Hp, Hi, Hrun.
Qed.

Lemma process_wait_expires (o : wait_oracle) (w : World) (p : Popen) :
  process w = Some p ->
  interrupt o = None ->
  is_running (run (during o) w) = true ->
  process_wait o w = (Raise timeout_expired, run (during o) w).
Proof.
  intros Hp Hi Hrun. unfold process_wait, bind, attr, env, modify, gets.
  now rewrite Hp, Hi, Hrun.
Qed.

(** The ["exit"] command of [stop_gowin] when its write succeeds. *)
Lemma exit_sent (o : stop_oracle) (w : World) :
  is_running w = true ->
  write_answer (exit_schedule o) = None ->
  (exists out, send_command (exit_schedule o) "exit" false w
               = (Ret out, after_exit o w)) /\
  (exists p, process (after_exit o w) = Some p) /\
  trace (after_exit o w)
  = (trace w ++ [Clear; Drain; Write ("exit" ++ nl); Drain])%list.
Proof.
  intros Hrun Hwrite. unfold after_exit, send_command.
  rewrite send_timeout_sleeps by assumption. simpl.
  split; [eexists; reflexivity|]. split.
  - destruct (is_running_process w Hrun) as [p Hp].
    destruct (drained_process (exit_schedule o) w p Hp) as [p1 Hp1].
    rewrite run_log. simpl. eapply run_process. exact Hp1.
  - rewrite run_trace. simpl. rewrite run_trace, drained_trace.
    now rewrite <- !app_assoc.
Qed.

End StopFacts.

(** X12.  When the child leaves on ["exit"] before the first wait of
    [stop_gowin] is over, the function sends it no signal: it requests
    neither [terminate()] nor [kill()], and it returns its message. *)
Theorem graceful_stop_sends_no_signal (o : stop_oracle) (w : World) :
  is_running w = true ->
  write_answer (exit_schedule o) = None ->
  interrupt (exit_wait o) = None ->
  is_running (after_exit_wait o w) = false ->
  fst (stop_gowin o w) = Ret stopped_message /\
  trace (snd (stop_gowin o w))
  = (trace w ++ [Clear; Drain; Write ("exit" ++ nl); Drain; Clear])%list.
Proof.
  intros Hrun Hwrite Hint Hgone.
  destruct (exit_sent o w Hrun Hwrite) as ((out & Hsend) & (p & Hp) & Htrace).
  assert (stop_gowin o w
          = (Ret stopped_message,
             set_prompt_ready false
               (log Clear (set_process None (after_exit_wait o w))))) as Hstop.
  { unfold stop_gowin, bind at 1, gets. rewrite Hrun. simpl.
    unfold bind at 1. rewrite cleanup_runs.
    match goal with |- context [fst (?m w)] =>
      assert (m w = (Ret tt, after_exit_wait o w)) as Hg end.
    { unfold try_except at 1, bind at 1. rewrite Hsend.
      unfold try_except at 1.
      now rewrite (process_wait_returns (exit_wait o) (after_exit o w) p Hp
                     Hint Hgone). }
    now rewrite Hg. }
  rewrite Hstop. simpl. split; [reflexivity|].
  unfold after_exit_wait. rewrite run_trace, Htrace.
  now rewrite <- !app_assoc.
Qed.

Lemma graceful_stop_sends_no_signal_witness :
  is_running live = true /\
  write_answer (exit_schedule clean_stop) = None /\
  interrupt (exit_wait clean_stop) = None /\
  is_running (after_exit_wait clean_stop live) = false /\
  fst (stop_gowin clean_stop live) = Ret stopped_message /\
  trace (snd (stop_gowin clean_stop live))
  = (trace live ++ [Clear; Drain; Write ("exit" ++ nl); Drain; Clear])%list.
Proof.
  repeat (split; [reflexivity|]).
  apply (graceful_stop_sends_no_signal clean_stop live); reflexivity.
Defined.

(** X13.  When the child is still alive at the end of both waits of
    [stop_gowin] and the requests succeed, the function escalates in
    order: after ["exit"] it requests [terminate()], then [kill()], each
    once, and returns its message. *)
Theorem stubborn_child_is_killed (o : stop_oracle) (w : World) :
  is_running w = true ->
  write_answer (exit_schedule o) = None ->
  interrupt (exit_wait o) = None ->
  is_running (after_exit_wait o w) = true ->
  terminate_answer o = None ->
  interrupt (terminate_wait o) = None ->
  is_running (after_terminate_wait o w) = true ->
  kill_answer o = None ->
  fst (stop_gowin o w) = Ret stopped_message /\
  trace (snd (stop_gowin o w))
  = (trace w ++ [Clear; Drain; Write ("exit" ++ nl); Drain;
                 Terminate; Kill; Clear])%list.
Proof.
  intros Hrun Hwrite Hint Halive Hterm Hint2 Halive2 Hkill.
  destruct (exit_sent o w Hrun Hwrite) as ((out & Hsend) & (p & Hp) & Htrace).
  destruct (run_process (during (exit_wait o)) _ p Hp) as [p1 Hp1].
  fold (after_exit_wait o w) in Hp1.
  assert (exists p2, process (after_terminate_wait o w) = Some p2) as [p2 Hp2]
    by (unfold after_terminate_wait; eapply run_process; simpl; exact Hp1).
  assert (stop_gowin o w
          = (Ret stopped_message,
             set_prompt_ready false
               (log Clear
                  (set_process None
                     (log Kill (after_terminate_wait o w)))))) as Hstop.
  { unfold stop_gowin, bind at 1, gets. rewrite Hrun. simpl.
    unfold bind at 1. rewrite cleanup_runs.
    match goal with |- context [fst (?m w)] =>
      assert (m w = (Ret tt, log Kill (after_terminate_wait o w))) as Hg end.
    { unfold try_except at 1, bind at 1. rewrite Hsend.
      unfold try_except at 1.
      rewrite (process_wait_expires (exit_wait o) (after_exit o w) p Hp Hint
                 Halive).
      simpl is_TimeoutExpired. cbv iota.
      fold (after_exit_wait o w).
      unfold bind at 1. rewrite Hterm, (request_granted _ _ _ p1 Hp1).
      unfold try_except at 1.
      rewrite (process_wait_expires (terminate_wait o)
                 (log Terminate (after_exit_wait o w)) p1 Hp1 Hint2 Halive2).
      simpl is_TimeoutExpired. cbv iota.
      fold (after_terminate_wait o w).
      now rewrite Hkill, (request_granted _ _ _ p2 Hp2). }
    now rewrite Hg. }
  rewrite Hstop. simpl. split; [reflexivity|].
  unfold after_terminate_wait, after_exit_wait.
  rewrite run_trace. simpl. rewrite run_trace, Htrace.
  now rewrite <- !app_assoc.
Qed.

Lemma stubborn_child_is_killed_witness :
  is_running live = true /\
  write_answer (exit_schedule stubborn) = None /\
  interrupt (exit_wait stubborn) = None /\
  is_running (after_exit_wait stubborn live) = true /\
  terminate_answer stubborn = None /\
  interrupt (terminate_wait stubborn) = None /\
  is_running (after_terminate_wait stubborn live) = true /\
  kill_answer stubborn = None /\
  fst (stop_gowin stubborn live) = Ret stopped_message /\
  trace (snd (stop_gowin stubborn live))
  = (trace live ++ [Clear; Drain; Write ("exit" ++ nl); Drain;
                    Terminate; Kill; Clear])%list.
Proof.
  repeat (split; [reflexivity|]).
  apply (stubborn_child_is_killed stubborn live); reflexivity.
Defined.

(** ** A reader thread that does not start *)


